(** * btplotting/clock.py: clock ranges and clock alignment

    A shallow embedding of [get_slice_with_end], [ClockGenerator] and
    [ClockHandler] of [btplotting/clock.py], and the properties of the
    alignment algorithm proved on it.

    Conventions of the embedding:
    - a Python [int] is a [Z]; positions produced by [range] are [nat];
    - a [datetime] (an entry of a clock) is a [Z], its instant on the time
      line; only [<], [==], [>] and its truth value are used by the code;
    - a Python [float] (an entry of a line buffer) is a binary64 [float];
      the missing marker is [nan], recognised by the code as [x != x];
    - a [str] is a [string]; a [pd.DataFrame] is the list of its named
      columns, in order;
    - a raised exception is a value [Raise e] of the [result] monad. *)

From Stdlib Require Import String.
From Stdlib Require Import ZArith List Lia Bool Sorted.
From Stdlib Require Import Floats.PrimFloat.
From Equations Require Import Equations.
Import ListNotations.

Set Implicit Arguments.

(** ** Python values and exceptions *)

Module Py.

Inductive exn : Set := IndexError | TypeError.

Inductive result (A : Type) : Type :=
| Ok (a : A)
| Raise (e : exn).
Arguments Ok {A} a.
Arguments Raise {A} e.

Definition bind {A B : Type} (r : result A) (k : A -> result B) : result B :=
  match r with
  | Ok a => k a
  | Raise e => Raise e
  end.

(** [try: r except IndexError: h] *)
Definition except_IndexError {A : Type} (r h : result A) : result A :=
  match r with
  | Raise IndexError => h
  | _ => r
  end.

(** [l[i]] for [i >= 0]. *)
Definition item {A : Type} (l : list A) (i : nat) : result A :=
  match nth_error l i with
  | Some x => Ok x
  | None => Raise IndexError
  end.

(** [l[i]] for an [int] [i]: a negative index counts from the end. *)
Definition getitem {A : Type} (l : list A) (i : Z) : result A :=
  let n := Z.of_nat (length l) in
  let j := if (i <? 0)%Z then (i + n)%Z else i in
  if (j <? 0)%Z then Raise IndexError else item l (Z.to_nat j).

(** [l[None]]-or-[l[i]]: indexing with [None] is a [TypeError]. *)
Definition item_at {A : Type} (l : list A) (o : option nat) : result (nat * A) :=
  match o with
  | Some i => bind (item l i) (fun x => Ok (i, x))
  | None => Raise TypeError
  end.

(** The bound of a slice brought into [0 .. n], as [l[a:b]] does. *)
Definition adjust (n i : Z) : Z :=
  if (i <? 0)%Z then Z.max 0 (i + n) else Z.min i n.

(** [l[start:stop]] *)
Definition slice {A : Type} (l : list A) (start stop : Z) : list A :=
  let n := Z.of_nat (length l) in
  let s := adjust n start in
  let e := adjust n stop in
  firstn (Z.to_nat (e - s)) (skipn (Z.to_nat s) l).

(** [x == x] on floats: false exactly on the missing marker. *)
Definition self_eq (x : float) : bool := PrimFloat.eqb x x.

(** Truth value of [None]-or-object, given the truth value of objects. *)
Definition truth {A : Type} (t : A -> bool) (o : option A) : bool :=
  match o with
  | Some a => t a
  | None => false
  end.

(** Truth value of a [datetime]: always true. *)
Definition datetime_truth (t : Z) : bool := true.

(** Truth value of an [int]: true unless it is [0]. *)
Definition int_truth (t : Z) : bool := negb (t =? 0)%Z.

End Py.

Import Py.

Declare Scope py_scope.
Delimit Scope py_scope with py.
Notation "x <- r ;; k" := (bind r (fun x => k))
  (at level 61, r at next level, right associativity) : py_scope.
Local Open Scope py_scope.

(** ** [get_slice_with_end] *)

Definition get_slice_with_end {A : Type} (data : list A) (start end_ : Z)
  : result (list A) :=
  if (end_ >=? start)%Z then
    except_IndexError
      (x <- getitem data end_ ;; Ok (slice data start end_ ++ [x]))
      (Ok [])
  else Ok [].

(** ** The [bisect] module of the Python library

    [bisect_left] and [bisect_right] as [Lib/bisect.py] has them, called
    with the default [lo=0] and [hi=len(a)]:
    [while lo < hi: mid = (lo + hi) // 2; ...]. *)

Module bisect.

Equations? left_loop (a : list Z) (x : Z) (lo hi : nat) : result nat
  by wf (hi - lo) lt :=
  left_loop a x lo hi with lt_dec lo hi := {
    | left _ =>
        match item a ((lo + hi) / 2) with
        | Ok y =>
            if (y <? x)%Z
            then left_loop a x (S ((lo + hi) / 2)) hi
            else left_loop a x lo ((lo + hi) / 2)
        | Raise e => Raise e
        end
    | right _ => Ok lo }.
Proof.
  all: pose proof (Nat.div_mod_eq (lo + hi) 2) as Hd;
    pose proof (Nat.mod_upper_bound (lo + hi) 2) as Hm;
    fold (Nat.div (lo + hi) 2) in *; lia.
Qed.

Equations? right_loop (a : list Z) (x : Z) (lo hi : nat) : result nat
  by wf (hi - lo) lt :=
  right_loop a x lo hi with lt_dec lo hi := {
    | left _ =>
        match item a ((lo + hi) / 2) with
        | Ok y =>
            if (x <? y)%Z
            then right_loop a x lo ((lo + hi) / 2)
            else right_loop a x (S ((lo + hi) / 2)) hi
        | Raise e => Raise e
        end
    | right _ => Ok lo }.
Proof.
  all: pose proof (Nat.div_mod_eq (lo + hi) 2) as Hd;
    pose proof (Nat.mod_upper_bound (lo + hi) 2) as Hm;
    fold (Nat.div (lo + hi) 2) in *; lia.
Qed.

Definition bisect_left (a : list Z) (x : Z) : result nat :=
  left_loop a x 0 (length a).

Definition bisect_right (a : list Z) (x : Z) : result nat :=
  right_loop a x 0 (length a).

End bisect.

(** ** [class ClockGenerator] *)

Module ClockGenerator.

(** An argument [start] or [end] of a range: [None], an [int], or a
    [datetime] (the code tests [type(start) == datetime]). *)
Inductive limit : Set :=
| NoneArg
| IntArg (i : Z)
| DatetimeArg (t : Z).

Section Decode.

(** [bt.num2date(x, self._tz)], of the backtrader library. *)
Variable num2date : float -> Z.

(** [self._clk.array] is the raw buffer [raw]. *)
Definition _get_clock_array (raw : list float) : list Z :=
  map num2date (filter self_eq raw).

End Decode.

Definition _get_clock_range (arr : list Z) (start end_ : limit)
  (back : option Z) : result (Z * Z) :=
  start1 <- match start with
            | NoneArg => Ok 0%Z
            | DatetimeArg t => i <- bisect.bisect_left arr t ;; Ok (Z.of_nat i)
            | IntArg i => Ok i
            end ;;
  end1 <- match end_ with
          | NoneArg => Ok (Z.of_nat (length arr) - 1)%Z
          | DatetimeArg t =>
              i <- bisect.bisect_right arr t ;; Ok (Z.of_nat i - 1)%Z
          | IntArg i => Ok i
          end ;;
  match back with
  | Some b =>
      if int_truth b
      then Ok (Z.max 0 (end1 - b + 1), end1)
      else Ok (start1, end1)
  | None => Ok (start1, end1)
  end.

Definition get_clock (num2date : float -> Z) (raw : list float)
  (start end_ : limit) (back : option Z) : result (list Z * Z * Z) :=
  let arr := _get_clock_array num2date raw in
  se <- _get_clock_range arr start end_ back ;;
  arr' <- get_slice_with_end arr (fst se) (snd se) ;;
  Ok (arr', fst se, snd se).

(** [bt.num2date(self._clk.array[idx], self._tz)]: the entry of the raw
    buffer at [idx], decoded. *)
Definition get_clock_time_at_idx (num2date : float -> Z) (raw : list float)
  (idx : Z) : result Z :=
  x <- getitem raw idx ;; Ok (num2date x).

End ClockGenerator.

(** ** [class ClockHandler] *)

Module ClockHandler.

(** The attributes set by [__init__]. *)
Record handler : Set := Handler {
  clk : list Z;
  start : Z;
  end_ : Z
}.

(** The variables of [_get_data_from_list] that the scan for one clock
    value reads and writes. *)
Record locals : Set := Locals {
  v : float;
  sc_prev : option Z;
  idx_prev : option nat;
  c_idx : nat
}.

Definition set_v (x : float) (st : locals) : locals :=
  Locals x (sc_prev st) (idx_prev st) (c_idx st).

Definition set_prev (sc : Z) (sc_idx : nat) (st : locals) : locals :=
  Locals (v st) (Some sc) (Some sc_idx) (c_idx st).

Definition set_c_idx (i : nat) (st : locals) : locals :=
  Locals (v st) (sc_prev st) (idx_prev st) i.

(** How one pass through the body of the inner [for] ends: at its last
    statement, or at a [break]. *)
Inductive flow : Set :=
| Next (st : locals)
| Break (st : locals).

Section Align.

(** The truth value of a clock entry ([if sc_prev:]). *)
Variable truthy : Z -> bool.
(** [self.clk] *)
Variable self_clk : list Z.
Variable llist : list float.
Variable fill_gaps : bool.

(** Lines 148-151: remember current value if not nan. *)
Definition remember (sc : Z) (sc_idx : nat) (st : locals) : result flow :=
  x <- item llist sc_idx ;;
  Ok (Next (if self_eq x then set_prev sc sc_idx st else st)).

(** Lines 126-151: the body of the inner [for], at position [sc_idx]. *)
Definition body (c : Z) (sc_idx : nat) (st : locals) : result flow :=
  sc <- item self_clk sc_idx ;;
  if (sc <? c)%Z then
    x <- item llist sc_idx ;;
    remember sc sc_idx (if self_eq x then set_v x st else st)
  else if (sc =? c)%Z then
    x <- item llist sc_idx ;;
    Ok (Break (set_c_idx (S sc_idx)
                 (if negb (self_eq (v st)) || self_eq x
                  then set_v x st else st)))
  else if (sc >? c)%Z then
    if fill_gaps
       || match sc_prev st with
          | Some p => truthy p && (p <? c)%Z
          | None => false
          end
    then
      if truth truthy (sc_prev st) then
        ix <- item_at llist (idx_prev st) ;;
        Ok (Break (set_c_idx (S (fst ix)) (set_v (snd ix) st)))
      else
        x <- item llist sc_idx ;;
        Ok (Break (set_c_idx sc_idx (set_v x st)))
    else Ok (Break st)
  else remember sc sc_idx st.

(** Lines 125-151: [n] passes of the inner [for], from position [sc_idx]. *)
Fixpoint scan (c : Z) (n sc_idx : nat) (st : locals) : result locals :=
  match n with
  | O => Ok st
  | S n' =>
      fl <- body c sc_idx st ;;
      match fl with
      | Next st' => scan c n' (S sc_idx) st'
      | Break st' => Ok st'
      end
  end.

(** Lines 121-123: the variables when the scan for a clock value starts. *)
Definition enter (c_idx : nat) : locals := Locals nan None None c_idx.

(** Lines 121-151 for the clock value [c]:
    [for sc_idx in range(c_idx, len(llist))]. *)
Definition align (c : Z) (c_idx : nat) : result locals :=
  scan c (length llist - c_idx) c_idx (enter c_idx).

(** Lines 120-153: the outer [for], over the clock values left. *)
Fixpoint outer (clk : list Z) (c_idx : nat) (data : list float)
  : result (list float) :=
  match clk with
  | [] => Ok data
  | c :: clk' =>
      st <- align c c_idx ;;
      outer clk' (ClockHandler.c_idx st) (data ++ [v st])
  end.

Definition _get_data_from_list (clk : list Z) : result (list float) :=
  outer clk 0 [].

(** The positions the inner [for] visits in [n] passes from [sc_idx]. *)
Fixpoint examined (c : Z) (n sc_idx : nat) (st : locals) : list nat :=
  match n with
  | O => []
  | S n' =>
      sc_idx ::
      match body c sc_idx st with
      | Ok (Next st') => examined c n' (S sc_idx) st'
      | _ => []
      end
  end.

(** The value of [c_idx] each time the outer [for] starts a pass, and when
    it ends; the list stops where an exception is raised. *)
Fixpoint cursors (clk : list Z) (c_idx : nat) : list nat :=
  c_idx ::
  match clk with
  | [] => []
  | c :: clk' =>
      match align c c_idx with
      | Ok st => cursors clk' (ClockHandler.c_idx st)
      | Raise _ => []
      end
  end.

End Align.

Definition get_list_from_line (truthy : Z -> bool) (self : handler)
  (line : list float) (clkalign : option (list Z)) (fill_gaps : bool)
  : result (list float) :=
  llist <- get_slice_with_end line (start self) (end_ self) ;;
  let clkalign := match clkalign with
                  | None => clk self
                  | Some c => c
                  end in
  _get_data_from_list truthy (clk self) llist fill_gaps clkalign.

(** A [pd.DataFrame] built column by column: its columns in order, each
    with its name. *)
Definition DataFrame : Type := list (string * list float).

(** [df[name] = values]: the column [name] is replaced where it stands,
    or added as the last one. (pandas compares the length of [values]
    with the index; the columns built here all have the length of the
    clock aligned to, so that the comparison is left out.) *)
Fixpoint setitem (df : DataFrame) (name : string) (values : list float)
  : DataFrame :=
  match df with
  | [] => [(name, values)]
  | (n, col) :: df' =>
      if String.eqb n name
      then (name, values) :: df'
      else (n, col) :: setitem df' name values
  end.

(** [linealias in skip] *)
Definition skipped (skip : list string) (linealias : string) : bool :=
  existsb (String.eqb linealias) skip.

(** The [for] of [get_df_from_series]. A [LineSeries] is given as the list
    of its line aliases ([series.getlinealiases()]), each with the buffer
    of the line that [getattr(series, linealias)] is. *)
Fixpoint df_loop (truthy : Z -> bool) (self : handler)
  (series : list (string * list float)) (clkalign : option (list Z))
  (name_prefix : string) (skip : list string) (fill_gaps : bool)
  (df : DataFrame) : result DataFrame :=
  match series with
  | [] => Ok df
  | (linealias, line) :: series' =>
      if skipped skip linealias
      then df_loop truthy self series' clkalign name_prefix skip fill_gaps df
      else
        values <- get_list_from_line truthy self line clkalign fill_gaps ;;
        df_loop truthy self series' clkalign name_prefix skip fill_gaps
          (setitem df (String.append name_prefix linealias) values)
  end.

Definition get_df_from_series (truthy : Z -> bool) (self : handler)
  (series : list (string * list float)) (clkalign : option (list Z))
  (name_prefix : string) (skip : list string) (fill_gaps : bool)
  : result DataFrame :=
  df_loop truthy self series clkalign name_prefix skip fill_gaps [].

End ClockHandler.

Import ClockHandler.

(** ** The scenario of the specification

    Source clock [1,2,3,5,6], line buffer [10,20,30,50,60], a handler whose
    range covers the whole buffer, and the clock [1,2,3,4,5,6] to align to. *)

Definition scenario_handler : handler := Handler [1; 2; 3; 5; 6]%Z 0 4.

Definition scenario_line : list float := [10; 20; 30; 50; 60]%float.

Definition scenario_clock : list Z := [1; 2; 3; 4; 5; 6]%Z.

(** A clock value after every entry of [l]. *)
Definition above (l : list Z) : Z := (fold_right Z.max 0 l + 1)%Z.

(** ** Predicates used in the statements *)

(** The length of the inclusive slice, from the length [n] of the
    sequence alone. *)
Definition inclusive_length (n s e : Z) : nat :=
  if (e >=? s)%Z && (- n <=? e)%Z && (e <? n)%Z
  then Z.to_nat (adjust n e - adjust n s) + 1
  else 0.

(** What holds of the variables when the inner [for], started at [c0],
    is about to visit [sc_idx]. *)
Record scanning (c0 sc_idx : nat) (st : locals) : Prop := Scanning {
  scanning_cursor : c_idx st = c0;
  scanning_pos : c0 <= sc_idx;
  scanning_idx : forall i, idx_prev st = Some i -> c0 <= i < sc_idx;
  scanning_prev : sc_prev st <> None -> idx_prev st <> None
}.

(** The stored clock has at [p] an instant strictly before [c]. *)
Definition earlier (self_clk : list Z) (c : Z) (p : nat) : Prop :=
  exists s, item self_clk p = Ok s /\ (s < c)%Z.

(** The segment has at [p] the missing marker. *)
Definition missing (llist : list float) (p : nat) : Prop :=
  exists x, item llist p = Ok x /\ self_eq x = false.

(** The candidate [v] and the remembered sample agree: nothing is
    remembered and [v] is missing, or the remembered sample is an entry of
    the stored clock and [v] is its non-missing value. *)
Definition held (self_clk : list Z) (llist : list float) (st : locals)
  : Prop :=
  match sc_prev st with
  | None => self_eq (v st) = false
  | Some p =>
      In p self_clk /\ self_eq (v st) = true /\
      exists i, idx_prev st = Some i /\ item llist i = Ok (v st)
  end.

(** The positions of [arr] from [i] on are those with an instant at or
    after [t]: [i] is the leftmost such position, [len(arr)] if none. *)
Definition leftmost_at_or_after (arr : list Z) (t : Z) (i : Z) : Prop :=
  (0 <= i <= Z.of_nat (length arr))%Z /\
  forall p y, nth_error arr p = Some y -> ((t <= y)%Z <-> (i <= Z.of_nat p)%Z).

(** The positions of [arr] up to [e] are those with an instant at or
    before [t]: [e] is the rightmost such position, [-1] if none. *)
Definition rightmost_at_or_before (arr : list Z) (t : Z) (e : Z) : Prop :=
  (-1 <= e < Z.of_nat (length arr))%Z /\
  forall p y, nth_error arr p = Some y -> ((y <= t)%Z <-> (Z.of_nat p <= e)%Z).

(** * Properties *)

(** ** The result monad and indexing *)

Lemma item_Ok (A : Type) (l : list A) (i : nat) (x : A) :
  item l i = Ok x <-> nth_error l i = Some x.
Proof.
  unfold item. destruct (nth_error l i); split; intros H;
    inversion H; reflexivity.
Qed.

Lemma item_in_bounds (A : Type) (l : list A) (i : nat) :
  i < length l -> exists x, item l i = Ok x.
Proof.
  intros H. unfold item.
  destruct (nth_error l i) eqn:E; [eauto|].
  apply nth_error_None in E. lia.
Qed.

Lemma item_out_of_bounds (A : Type) (l : list A) (i : nat) :
  length l <= i -> item l i = Raise IndexError.
Proof.
  intros H. unfold item.
  apply nth_error_None in H. now rewrite H.
Qed.

Lemma item_Ok_lt (A : Type) (l : list A) (i : nat) (x : A) :
  item l i = Ok x -> i < length l.
Proof.
  intros H. apply item_Ok in H. apply nth_error_Some. congruence.
Qed.

(** [l[i]] succeeds exactly for [-len(l) <= i < len(l)]. *)
Lemma getitem_in_bounds (A : Type) (l : list A) (i : Z) :
  (- Z.of_nat (length l) <= i < Z.of_nat (length l))%Z ->
  exists x, getitem l i = Ok x.
Proof.
  intros H. unfold getitem.
  destruct (i <? 0)%Z eqn:Ei.
  - apply Z.ltb_lt in Ei.
    destruct (i + Z.of_nat (length l) <? 0)%Z eqn:Ej;
      [apply Z.ltb_lt in Ej; lia|].
    apply item_in_bounds. lia.
  - rewrite Ei. apply Z.ltb_ge in Ei.
    apply item_in_bounds. lia.
Qed.

Lemma getitem_out_of_bounds (A : Type) (l : list A) (i : Z) :
  (i < - Z.of_nat (length l) \/ Z.of_nat (length l) <= i)%Z ->
  getitem l i = Raise IndexError.
Proof.
  intros H. unfold getitem.
  destruct (i <? 0)%Z eqn:Ei.
  - apply Z.ltb_lt in Ei.
    destruct (i + Z.of_nat (length l) <? 0)%Z eqn:Ej; [reflexivity|].
    apply Z.ltb_ge in Ej. lia.
  - rewrite Ei. apply Z.ltb_ge in Ei.
    apply item_out_of_bounds. lia.
Qed.

Lemma getitem_cases (A : Type) (l : list A) (i : Z) :
  (exists x, getitem l i = Ok x /\
             (- Z.of_nat (length l) <= i < Z.of_nat (length l))%Z) \/
  (getitem l i = Raise IndexError /\
   (i < - Z.of_nat (length l) \/ Z.of_nat (length l) <= i)%Z).
Proof.
  destruct (Z_lt_le_dec i (- Z.of_nat (length l))) as [H|H].
  - right. split; [apply getitem_out_of_bounds|]; lia.
  - destruct (Z_lt_le_dec i (Z.of_nat (length l))) as [H'|H'].
    + left. destruct (@getitem_in_bounds A l i) as [x Hx]; [lia|].
      exists x. split; [assumption|lia].
    + right. split; [apply getitem_out_of_bounds|]; lia.
Qed.

(** ** [get_slice_with_end] *)

(** For positions [0 <= start <= end < len(data)] the result is the
    elements at [start .. end], both ends included. *)
Lemma get_slice_with_end_inclusive (A : Type) (data : list A) (s e : nat) :
  s <= e -> e < length data ->
  get_slice_with_end data (Z.of_nat s) (Z.of_nat e)
  = Ok (firstn (e - s + 1) (skipn s data)).
Proof.
  intros Hse He. unfold get_slice_with_end.
  destruct (Z.of_nat e >=? Z.of_nat s)%Z eqn:E; [|lia].
  unfold getitem.
  destruct (Z.of_nat e <? 0)%Z eqn:E0; [lia|]. rewrite E0.
  rewrite Nat2Z.id.
  destruct (item_in_bounds data He) as [x Hx]. rewrite Hx. simpl.
  f_equal. unfold slice, adjust.
  destruct (Z.of_nat s <? 0)%Z eqn:E1; [lia|]. rewrite E0.
  rewrite !Z.min_l by lia.
  rewrite Nat2Z.id.
  replace (Z.to_nat (Z.of_nat e - Z.of_nat s)) with (e - s) by lia.
  apply item_Ok in Hx.
  assert (Hx' : nth_error (skipn s data) (e - s) = Some x).
  { rewrite nth_error_skipn. now replace (s + (e - s)) with e by lia. }
  clear Hx. generalize dependent (skipn s data). generalize (e - s).
  induction n as [|n IH]; intros l Hl.
  - destruct l as [|y l]; [discriminate|]. simpl in *. congruence.
  - destruct l as [|y l]; [discriminate|]. simpl in *.
    f_equal. now apply IH.
Qed.

(** C4. For every sequence and every pair of indices [start], [end],
    [get_slice_with_end] never raises; it returns [data[start:end]] with
    [data[end]] appended when [end >= start] and [data[end]] succeeds
    (that is, [-len(data) <= end < len(data)]); it returns the empty list
    when [end < start] or [data[end]] is out of bounds; for an empty
    [data] the result is empty whatever [start] and [end] are. *)
Theorem get_slice_with_end_spec (A : Type) (data : list A) (start end_ : Z) :
  (exists l, get_slice_with_end data start end_ = Ok l) /\
  (forall x, (end_ >= start)%Z -> getitem data end_ = Ok x ->
     (- Z.of_nat (length data) <= end_ < Z.of_nat (length data))%Z /\
     get_slice_with_end data start end_ = Ok (slice data start end_ ++ [x])) /\
  ((end_ < start)%Z \/ getitem data end_ = Raise IndexError ->
     get_slice_with_end data start end_ = Ok []) /\
  ((end_ < - Z.of_nat (length data))%Z \/ (Z.of_nat (length data) <= end_)%Z ->
     getitem data end_ = Raise IndexError) /\
  (data = [] -> get_slice_with_end data start end_ = Ok []).
Proof.
  assert (Hraise : (end_ < start)%Z \/ getitem data end_ = Raise IndexError ->
                   get_slice_with_end data start end_ = Ok []).
  { intros [H|H]; unfold get_slice_with_end.
    - destruct (end_ >=? start)%Z eqn:E; [lia|reflexivity].
    - destruct (end_ >=? start)%Z; [|reflexivity]. now rewrite H. }
  repeat split.
  - unfold get_slice_with_end.
    destruct (end_ >=? start)%Z; [|eauto].
    destruct (getitem_cases data end_) as [[x [Hx _]]|[Hx _]];
      rewrite Hx; simpl; eauto.
  - destruct (getitem_cases data end_) as [[y [Hy Hb]]|[Hy _]];
      [lia|congruence].
  - destruct (getitem_cases data end_) as [[y [Hy Hb]]|[Hy _]];
      [lia|congruence].
  - unfold get_slice_with_end.
    destruct (end_ >=? start)%Z eqn:E; [|lia]. now rewrite H0.
  - exact Hraise.
  - apply getitem_out_of_bounds.
  - intros ->. apply Hraise.
    destruct (Z_lt_le_dec end_ start) as [H|H]; [now left|right].
    apply getitem_out_of_bounds. simpl. lia.
Qed.

Example get_slice_with_end_inside :
  get_slice_with_end [10; 20; 30; 40]%Z 1 2 = Ok [20; 30]%Z.
Proof. reflexivity. Qed.

Example get_slice_with_end_negative :
  get_slice_with_end [10; 20; 30; 40]%Z (-3) (-1) = Ok [20; 30; 40]%Z.
Proof. reflexivity. Qed.

Example get_slice_with_end_beyond :
  get_slice_with_end [10; 20; 30; 40]%Z 1 4 = Ok [].
Proof. reflexivity. Qed.

Example get_slice_with_end_empty_clock :
  get_slice_with_end (@nil Z) 0 (-1) = Ok [].
Proof. reflexivity. Qed.

(** ** The scan of [_get_data_from_list] *)

Ltac case_if :=
  match goal with
  | |- context [if ?b then _ else _] => destruct b eqn:?
  | H : context [if ?b then _ else _] |- _ => destruct b eqn:?
  end.

Ltac case_item :=
  match goal with
  | |- context [item ?l ?i] => destruct (item l i) eqn:?; simpl
  | H : context [item ?l ?i] |- _ => destruct (item l i) eqn:?; simpl in H
  end.

Section AlignFacts.

Variable truthy : Z -> bool.
Variable self_clk : list Z.
Variable llist : list float.
Variable fill_gaps : bool.

Lemma scanning_enter (c0 : nat) : scanning c0 c0 (enter c0).
Proof.
  split; simpl; try congruence; lia.
Qed.

Lemma remember_inv (c0 i : nat) (sc : Z) (st : locals) (fl : flow) :
  c_idx st = c0 -> c0 <= i ->
  (forall k, idx_prev st = Some k -> c0 <= k < i) ->
  (sc_prev st <> None -> idx_prev st <> None) ->
  remember llist sc i st = Ok fl ->
  exists st', fl = Next st' /\ scanning c0 (S i) st'.
Proof.
  intros Hc Hp Hi Hs H. unfold remember in H.
  case_item; [|discriminate]. inversion H; subst fl; clear H.
  eexists; split; [reflexivity|].
  case_if; split; simpl; try congruence; try lia; try assumption.
  - intros k Hk. inversion Hk; subst. lia.
  - intros k Hk. apply Hi in Hk. lia.
Qed.

(** One pass keeps [scanning], or breaks with a cursor that did not
    move back. *)
Lemma body_inv (c : Z) (c0 i : nat) (st : locals) (fl : flow) :
  scanning c0 i st ->
  body truthy self_clk llist fill_gaps c i st = Ok fl ->
  match fl with
  | Next st' => scanning c0 (S i) st'
  | Break st' => c0 <= c_idx st'
  end.
Proof.
  intros [Hc Hp Hi Hs] H. unfold body in H.
  destruct (item self_clk i) as [sc|] eqn:Esc; simpl in H; [|discriminate].
  destruct (sc <? c)%Z.
  { destruct (item llist i) as [x|] eqn:Ex; simpl in H; [|discriminate].
    apply (@remember_inv c0) in H.
    - destruct H as [st' [-> H]]. exact H.
    - now destruct (self_eq x).
    - assumption.
    - now destruct (self_eq x).
    - now destruct (self_eq x). }
  destruct (sc =? c)%Z.
  { destruct (item llist i) as [x|] eqn:Ex; simpl in H; [|discriminate].
    inversion H; subst fl. simpl. lia. }
  destruct (sc >? c)%Z.
  { destruct (fill_gaps || _).
    - destruct (truth truthy (sc_prev st)).
      + destruct (idx_prev st) as [k|] eqn:Ek; simpl in H; [|discriminate].
        destruct (item llist k) as [x|] eqn:Ex; simpl in H; [|discriminate].
        inversion H; subst fl. simpl.
        specialize (Hi k eq_refl). lia.
      + destruct (item llist i) as [x|] eqn:Ex; simpl in H; [|discriminate].
        inversion H; subst fl. simpl. lia.
    - inversion H; subst fl. lia. }
  apply (@remember_inv c0) in H; try assumption.
  destruct H as [st' [-> H]]. exact H.
Qed.

(** One pass at a position inside both lists raises nothing. *)
Lemma body_safe (c : Z) (c0 i : nat) (st : locals) :
  scanning c0 i st -> i < length llist -> i < length self_clk ->
  exists fl, body truthy self_clk llist fill_gaps c i st = Ok fl.
Proof.
  intros [Hc Hp Hi Hs] Hl Hk. unfold body, remember.
  destruct (item_in_bounds self_clk Hk) as [sc ->].
  destruct (item_in_bounds llist Hl) as [x Hx]. simpl. rewrite Hx. simpl.
  destruct (sc <? c)%Z; [eauto|].
  destruct (sc =? c)%Z; [eauto|].
  destruct (sc >? c)%Z; [|eauto].
  destruct (fill_gaps || _); [|eauto].
  destruct (sc_prev st) as [p|] eqn:Ep; simpl; [|eauto].
  destruct (truthy p); [|eauto].
  destruct (idx_prev st) as [k|] eqn:Ek; [|exfalso; apply Hs; congruence].
  specialize (Hi k eq_refl).
  assert (Hkl : k < length llist) by lia.
  destruct (item_in_bounds llist Hkl) as [y Hy].
  simpl. rewrite Hy. simpl. eauto.
Qed.

Lemma scan_cursor (c : Z) (c0 n : nat) :
  forall (i : nat) (st st' : locals),
    scanning c0 i st ->
    scan truthy self_clk llist fill_gaps c n i st = Ok st' ->
    c0 <= c_idx st'.
Proof.
  induction n as [|n IH]; intros i st st' Hinv H; simpl in H.
  - inversion H; subst. destruct Hinv. lia.
  - destruct (body truthy self_clk llist fill_gaps c i st) as [fl|] eqn:Eb;
      simpl in H; [|discriminate].
    apply (@body_inv c c0 i st fl Hinv) in Eb.
    destruct fl as [st1|st1].
    + eapply IH; eassumption.
    + inversion H; subst. exact Eb.
Qed.

Lemma scan_safe (c : Z) (c0 n : nat) :
  forall (i : nat) (st : locals),
    scanning c0 i st ->
    i + n <= length llist -> length llist <= length self_clk ->
    exists st', scan truthy self_clk llist fill_gaps c n i st = Ok st'.
Proof.
  induction n as [|n IH]; intros i st Hinv Hn Hlen; simpl.
  - eauto.
  - destruct (@body_safe c c0 i st) as [fl Hfl]; try assumption; try lia.
    rewrite Hfl. simpl.
    destruct fl as [st1|st1]; [|eauto].
    apply (@body_inv c c0 i st _ Hinv) in Hfl.
    apply IH; try assumption; lia.
Qed.

(** The cursor after the scan for one clock value is not before the
    cursor it started from. *)
Lemma align_cursor (c : Z) (c0 : nat) (st : locals) :
  align truthy self_clk llist fill_gaps c c0 = Ok st -> c0 <= c_idx st.
Proof.
  intros H. eapply scan_cursor; [apply scanning_enter|exact H].
Qed.

Lemma align_safe (c : Z) (c0 : nat) :
  length llist <= length self_clk ->
  exists st, align truthy self_clk llist fill_gaps c c0 = Ok st.
Proof.
  intros Hlen. unfold align.
  destruct (le_lt_dec c0 (length llist)) as [H|H].
  - eapply scan_safe; [apply scanning_enter|lia|assumption].
  - replace (length llist - c0) with 0 by lia. simpl. eauto.
Qed.

Lemma outer_length (clk : list Z) :
  forall (c0 : nat) (data out : list float),
    outer truthy self_clk llist fill_gaps clk c0 data = Ok out ->
    length out = length data + length clk.
Proof.
  induction clk as [|c clk IH]; intros c0 data out H; simpl in H.
  - inversion H; subst. simpl. lia.
  - destruct (align truthy self_clk llist fill_gaps c c0) as [st|];
      simpl in H; [|discriminate].
    apply IH in H. rewrite H, length_app. simpl. lia.
Qed.

Lemma outer_safe (clk : list Z) :
  length llist <= length self_clk ->
  forall (c0 : nat) (data : list float),
    exists out, outer truthy self_clk llist fill_gaps clk c0 data = Ok out.
Proof.
  intros Hlen.
  induction clk as [|c clk IH]; intros c0 data; simpl.
  - eauto.
  - destruct (@align_safe c c0 Hlen) as [st ->]. simpl. apply IH.
Qed.

End AlignFacts.

(** ** The scenario: forward fill and gap fill *)

(** C1, as amended. With [fill_gaps=False] the scenario gives
    [10,20,30,nan,50,60]: the scan for the clock value 4 starts after the
    sample of instant 3, meets instant 5 first and has no earlier sample
    to carry forward, so the value at 4 is the missing marker. *)
Theorem scenario_no_fill (truthy : Z -> bool) :
  get_list_from_line truthy scenario_handler scenario_line
    (Some scenario_clock) false
  = Ok [10; 20; 30; nan; 50; 60]%float.
Proof.
  vm_compute. reflexivity.
Qed.

(** C1, as stated, fails: the output is not [10,20,30,30,50,60]. *)
Lemma scenario_no_fill_not_forward_filled :
  get_list_from_line int_truth scenario_handler scenario_line
    (Some scenario_clock) false
  <> Ok [10; 20; 30; 30; 50; 60]%float.
Proof.
  intros H.
  apply (f_equal (fun r => match r with
                           | Ok l => self_eq (nth 3 l 0%float)
                           | Raise _ => true
                           end)) in H.
  vm_compute in H. discriminate H.
Qed.

(** A value is carried forward when the scan itself passed it: aligned to
    the clock [4,7] from the start of the buffer, the scan for 4 passes
    the samples of 1, 2 and 3 before it meets 5, and gives 30. *)
Example carried_forward_within_scan :
  get_list_from_line int_truth scenario_handler scenario_line
    (Some [4; 7]%Z) false
  = Ok [30; 60]%float.
Proof.
  vm_compute. reflexivity.
Qed.

(** C3. With [fill_gaps=True] the scenario gives [10,20,30,50,50,60]: the
    clock value 4 takes the value of the next sample, 50. *)
Theorem scenario_fill_gaps (truthy : Z -> bool) :
  get_list_from_line truthy scenario_handler scenario_line
    (Some scenario_clock) true
  = Ok [10; 20; 30; 50; 50; 60]%float.
Proof.
  vm_compute. reflexivity.
Qed.

(** ** Length of the output *)

(** The call returns a list only with one value for each clock value. *)
Lemma _get_data_from_list_length (truthy : Z -> bool) (self_clk : list Z)
  (llist : list float) (fill_gaps : bool) (clk : list Z) (data : list float) :
  _get_data_from_list truthy self_clk llist fill_gaps clk = Ok data ->
  length data = length clk.
Proof.
  intros H. apply outer_length in H. exact H.
Qed.

(** C5, as stated, fails: with a stored clock shorter than the segment
    the call raises [IndexError] and gives no output at all. *)
Lemma resample_no_output :
  ~ (exists data,
       _get_data_from_list datetime_truth [] [5; nan]%float false [1%Z]
       = Ok data /\ length data = length [1%Z]).
Proof.
  intros [data [H _]]. vm_compute in H. discriminate H.
Qed.

(** C5, as amended. When the stored clock [self.clk] is at least as long
    as the segment, the call returns, with exactly one value for each
    value of the clock it aligns to. *)
Theorem resample_length (truthy : Z -> bool) (self_clk : list Z)
  (llist : list float) (fill_gaps : bool) (clk : list Z) :
  length llist <= length self_clk ->
  exists data,
    _get_data_from_list truthy self_clk llist fill_gaps clk = Ok data /\
    length data = length clk.
Proof.
  intros Hlen.
  destruct (@outer_safe truthy self_clk llist fill_gaps clk Hlen 0 [])
    as [data Hd].
  exists data. split; [exact Hd|].
  now apply _get_data_from_list_length in Hd.
Qed.

Lemma resample_length_witness :
  exists data,
    _get_data_from_list int_truth [1; 2; 3; 5; 6]%Z scenario_line true
      scenario_clock = Ok data /\
    length data = length scenario_clock.
Proof.
  apply (@resample_length int_truth [1; 2; 3; 5; 6]%Z scenario_line true
           scenario_clock).
  simpl. lia.
Defined.

(** ** The cursor *)

Lemma cursors_head (truthy : Z -> bool) (self_clk : list Z)
  (llist : list float) (fill_gaps : bool) (clk : list Z) (c0 : nat) :
  exists l, cursors truthy self_clk llist fill_gaps clk c0 = c0 :: l.
Proof.
  destruct clk; simpl; eauto.
Qed.

Lemma cursors_sorted (truthy : Z -> bool) (self_clk : list Z)
  (llist : list float) (fill_gaps : bool) (clk : list Z) :
  forall c0, Sorted le (cursors truthy self_clk llist fill_gaps clk c0).
Proof.
  induction clk as [|c clk IH]; intros c0; simpl.
  - repeat constructor.
  - destruct (align truthy self_clk llist fill_gaps c c0) as [st|] eqn:E.
    + constructor; [apply IH|].
      destruct (cursors_head truthy self_clk llist fill_gaps clk (c_idx st))
        as [l ->].
      constructor. eapply align_cursor; eassumption.
    + repeat constructor.
Qed.

Lemma cursors_complete (truthy : Z -> bool) (self_clk : list Z)
  (llist : list float) (fill_gaps : bool) (clk : list Z) :
  forall c0 data out,
    outer truthy self_clk llist fill_gaps clk c0 data = Ok out ->
    length (cursors truthy self_clk llist fill_gaps clk c0) = S (length clk).
Proof.
  induction clk as [|c clk IH]; intros c0 data out H; simpl in *.
  - reflexivity.
  - destruct (align truthy self_clk llist fill_gaps c c0) as [st|];
      simpl in H; [|discriminate].
    f_equal. eapply IH; eassumption.
Qed.

(** C7. In one call, the values [c_idx] has when the scans for the
    successive clock values start never decrease, whatever the buffer, the
    clock and [fill_gaps]; when the call returns, that is one cursor for
    each clock value, and the last. *)
Theorem cursor_never_decreases (truthy : Z -> bool) (self_clk : list Z)
  (llist : list float) (fill_gaps : bool) (clk : list Z) :
  Sorted le (cursors truthy self_clk llist fill_gaps clk 0) /\
  (forall data,
     _get_data_from_list truthy self_clk llist fill_gaps clk = Ok data ->
     length (cursors truthy self_clk llist fill_gaps clk 0) = S (length clk)).
Proof.
  split.
  - apply cursors_sorted.
  - intros data H. eapply cursors_complete; exact H.
Qed.

(** ** Index accesses *)

Lemma above_spec (l : list Z) (s : Z) : In s l -> (s < above l)%Z.
Proof.
  unfold above. induction l as [|y l IH]; simpl; intros H.
  - contradiction.
  - destruct H as [->|H]; [lia|]. apply IH in H. lia.
Qed.

Lemma item_In (A : Type) (l : list A) (i : nat) (x : A) :
  item l i = Ok x -> In x l.
Proof.
  intros H. apply item_Ok in H. eapply nth_error_In; eassumption.
Qed.

(** The positions visited in [n] passes from [i] are [i .. i+n-1]. *)
Lemma examined_range (truthy : Z -> bool) (self_clk : list Z)
  (llist : list float) (fill_gaps : bool) (c : Z) (n : nat) :
  forall i st p,
    In p (examined truthy self_clk llist fill_gaps c n i st) ->
    i <= p < i + n.
Proof.
  induction n as [|n IH]; intros i st p H; simpl in H.
  - contradiction.
  - destruct H as [<-|H]; [lia|].
    destruct (body truthy self_clk llist fill_gaps c i st) as [[st'|st']|];
      try contradiction.
    apply IH in H. lia.
Qed.

(** A scan for a clock value after every entry of a stored clock that is
    shorter than the segment runs off the end of the stored clock. *)
Lemma scan_past_clock (truthy : Z -> bool) (self_clk : list Z)
  (llist : list float) (fill_gaps : bool) (n : nat) :
  forall i st,
    i <= length self_clk -> length self_clk < i + n ->
    i + n <= length llist ->
    scan truthy self_clk llist fill_gaps (above self_clk) n i st
    = Raise IndexError.
Proof.
  induction n as [|n IH]; intros i st Hi Hn Hl; [lia|].
  simpl. unfold body.
  destruct (le_lt_dec (length self_clk) i) as [Hk|Hk].
  - rewrite (item_out_of_bounds self_clk Hk). reflexivity.
  - destruct (item_in_bounds self_clk Hk) as [sc Hsc]. rewrite Hsc. simpl.
    pose proof (above_spec _ _ (item_In _ _ Hsc)) as Hlt.
    apply Z.ltb_lt in Hlt. rewrite Hlt.
    assert (Hil : i < length llist) by lia.
    destruct (item_in_bounds llist Hil) as [x Hx].
    unfold remember. rewrite Hx. simpl.
    apply IH; lia.
Qed.

(** C10. When the stored clock [self.clk] is at least as long as the
    segment, every position the inner scan visits is inside both the
    segment and the stored clock, and the call returns without raising;
    the inner loop is bounded by the length of the segment only, so the
    condition is needed: for a shorter stored clock there is a clock to
    align to on which the call raises [IndexError]. *)
Theorem resample_index_safety (truthy : Z -> bool) (self_clk : list Z)
  (llist : list float) (fill_gaps : bool) :
  (length llist <= length self_clk ->
   forall clk,
     (exists data,
        _get_data_from_list truthy self_clk llist fill_gaps clk = Ok data) /\
     (forall c c0 p,
        In p (examined truthy self_clk llist fill_gaps c
                (length llist - c0) c0 (enter c0)) ->
        p < length llist /\ p < length self_clk)) /\
  (length self_clk < length llist ->
   exists clk,
     _get_data_from_list truthy self_clk llist fill_gaps clk
     = Raise IndexError).
Proof.
  split.
  - intros Hlen clk. split.
    + apply outer_safe. exact Hlen.
    + intros c c0 p H. apply examined_range in H. lia.
  - intros Hlen. exists [above self_clk].
    unfold _get_data_from_list. simpl. unfold align.
    rewrite scan_past_clock; [reflexivity| | |]; lia.
Qed.

Lemma resample_index_safety_witness :
  (exists data,
     _get_data_from_list int_truth [1; 2; 3; 5; 6]%Z scenario_line false
       scenario_clock = Ok data) /\
  (exists clk,
     _get_data_from_list int_truth [1; 2]%Z scenario_line false clk
     = Raise IndexError).
Proof.
  split.
  - apply (proj1 (resample_index_safety int_truth [1; 2; 3; 5; 6]%Z
                    scenario_line false)).
    simpl. lia.
  - apply (proj2 (resample_index_safety int_truth [1; 2]%Z
                    scenario_line false)).
    simpl. lia.
Defined.

(** ** One pass of the inner loop, case by case *)

Section BodyCases.

Variable truthy : Z -> bool.
Variable self_clk : list Z.
Variable llist : list float.
Variable fill_gaps : bool.

(** [sc < c]: the value is taken and remembered unless it is missing. *)
Lemma body_earlier (c : Z) (i : nat) (st : locals) (sc : Z) (x : float) :
  item self_clk i = Ok sc -> (sc < c)%Z -> item llist i = Ok x ->
  body truthy self_clk llist fill_gaps c i st
  = Ok (Next (if self_eq x then set_prev sc i (set_v x st) else st)).
Proof.
  intros Hsc Hlt Hx. unfold body, remember. rewrite Hsc. simpl.
  apply Z.ltb_lt in Hlt. rewrite Hlt, Hx. simpl.
  now destruct (self_eq x).
Qed.

(** [sc == c]: the value is taken unless it is missing while a candidate
    is held; the cursor moves past the position. *)
Lemma body_match (c : Z) (i : nat) (st : locals) (y : float) :
  item self_clk i = Ok c -> item llist i = Ok y ->
  body truthy self_clk llist fill_gaps c i st
  = Ok (Break (set_c_idx (S i)
                 (if negb (self_eq (v st)) || self_eq y
                  then set_v y st else st))).
Proof.
  intros Hsc Hy. unfold body. rewrite Hsc. simpl.
  rewrite Z.ltb_irrefl, Z.eqb_refl, Hy. reflexivity.
Qed.

(** A missing value at an exact match leaves a held candidate alone. *)
Lemma body_match_missing (c : Z) (i : nat) (st : locals) (y : float) :
  item self_clk i = Ok c -> item llist i = Ok y ->
  self_eq y = false -> self_eq (v st) = true ->
  body truthy self_clk llist fill_gaps c i st
  = Ok (Break (set_c_idx (S i) st)).
Proof.
  intros Hsc Hy Hnan Hv. rewrite (body_match _ _ Hsc Hy).
  now rewrite Hv, Hnan.
Qed.

(** Over positions with earlier instants and missing values the scan
    changes nothing. *)
Lemma scan_missing_stretch (c : Z) (m : nat) :
  forall i st n,
    (forall p, i <= p < i + m -> earlier self_clk c p /\ missing llist p) ->
    scan truthy self_clk llist fill_gaps c (m + n) i st
    = scan truthy self_clk llist fill_gaps c n (i + m) st.
Proof.
  induction m as [|m IH]; intros i st n H.
  - now rewrite Nat.add_0_r.
  - destruct (H i) as [[s [Hs Hlt]] [x [Hx Hnan]]]; [lia|].
    simpl. rewrite (body_earlier _ st Hs Hlt Hx), Hnan. simpl.
    rewrite IH.
    + f_equal. lia.
    + intros p Hp. apply H. lia.
Qed.

Lemma examined_missing_stretch (c : Z) (m : nat) :
  forall i st n,
    (forall p, i <= p < i + m -> earlier self_clk c p /\ missing llist p) ->
    examined truthy self_clk llist fill_gaps c (m + n) i st
    = seq i m ++ examined truthy self_clk llist fill_gaps c n (i + m) st.
Proof.
  induction m as [|m IH]; intros i st n H.
  - now rewrite Nat.add_0_r.
  - destruct (H i) as [[s [Hs Hlt]] [x [Hx Hnan]]]; [lia|].
    simpl. rewrite (body_earlier _ st Hs Hlt Hx), Hnan.
    rewrite IH.
    + do 3 f_equal. lia.
    + intros p Hp. apply H. lia.
Qed.

(** Over positions with earlier instants the scan goes on. *)
Lemma scan_earlier_stretch (c : Z) (m : nat) :
  forall i st,
    (forall p, i <= p < i + m -> earlier self_clk c p) ->
    i + m <= length llist ->
    exists st',
      c_idx st' = c_idx st /\
      forall n,
        scan truthy self_clk llist fill_gaps c (m + n) i st
        = scan truthy self_clk llist fill_gaps c n (i + m) st'.
Proof.
  induction m as [|m IH]; intros i st H Hl.
  - exists st. split; [reflexivity|]. intros n. now rewrite Nat.add_0_r.
  - destruct (H i) as [s [Hs Hlt]]; [lia|].
    assert (Hil : i < length llist) by lia.
    destruct (item_in_bounds llist Hil) as [x Hx].
    destruct (IH (S i) (if self_eq x then set_prev s i (set_v x st) else st))
      as [st' [Hc Hst']]; [intros p Hp; apply H; lia|lia|].
    exists st'. split.
    + rewrite Hc. now destruct (self_eq x).
    + intros n. simpl. rewrite (body_earlier _ st Hs Hlt Hx). simpl.
      rewrite Hst'. f_equal. lia.
Qed.

End BodyCases.

(** ** Overshoot with nothing to carry forward *)

(** C2. With [fill_gaps=False], when the scan for the clock value [c],
    started at the cursor [c0], meets at [j] a source instant strictly
    after [c], and every position before [j] in that scan held a missing
    value (so no non-missing source instant before [c] was remembered),
    then the value for [c] is the missing marker and the cursor stays
    [c0]: the rest of the clock is aligned from the same cursor, and the
    scan for a next clock value [c' >= c] visits position [j] again. *)
Theorem overshoot_without_candidate (truthy : Z -> bool) (self_clk : list Z)
  (llist : list float) (c : Z) (c0 j : nat) (sc : Z) :
  c0 <= j -> j < length llist ->
  (forall p, c0 <= p < j -> earlier self_clk c p /\ missing llist p) ->
  item self_clk j = Ok sc -> (c < sc)%Z ->
  align truthy self_clk llist false c c0 = Ok (enter c0) /\
  v (enter c0) = nan /\ c_idx (enter c0) = c0 /\
  (forall clk data,
     outer truthy self_clk llist false (c :: clk) c0 data
     = outer truthy self_clk llist false clk c0 (data ++ [nan])) /\
  (forall c', (c <= c')%Z ->
     In j (examined truthy self_clk llist false c'
             (length llist - c0) c0 (enter c0))).
Proof.
  intros Hj Hl Hstretch Hsc Hgt.
  assert (Hn : length llist - c0 = (j - c0) + S (length llist - S j)) by lia.
  assert (Halign : align truthy self_clk llist false c c0 = Ok (enter c0)).
  { unfold align. rewrite Hn, scan_missing_stretch.
    - replace (c0 + (j - c0)) with j by lia.
      simpl. unfold body. rewrite Hsc. simpl.
      destruct (sc <? c)%Z eqn:E1; [apply Z.ltb_lt in E1; lia|].
      destruct (sc =? c)%Z eqn:E2; [apply Z.eqb_eq in E2; lia|].
      destruct (sc >? c)%Z eqn:E3; [reflexivity|].
      rewrite Z.gtb_ltb in E3. apply Z.ltb_ge in E3. lia.
    - intros p Hp. apply Hstretch. lia. }
  repeat split; try assumption.
  - intros clk data. simpl. rewrite Halign. reflexivity.
  - intros c' Hc'. rewrite Hn, examined_missing_stretch.
    + apply in_or_app. right.
      replace (c0 + (j - c0)) with j by lia. simpl. now left.
    + intros p Hp.
      destruct (Hstretch p) as [[s [Hs Hlt]] Hm]; [lia|].
      split; [|assumption]. exists s. split; [assumption|lia].
Qed.

Lemma overshoot_without_candidate_witness :
  align int_truth [1; 5]%Z [nan; 50]%float false 3 0 = Ok (enter 0) /\
  In 1 (examined int_truth [1; 5]%Z [nan; 50]%float false 4
          (length [nan; 50]%float - 0) 0 (enter 0)).
Proof.
  assert (Hp : forall p, 0 <= p < 1 ->
                 earlier [1; 5]%Z 3 p /\ missing [nan; 50]%float p).
  { intros p Hp. assert (p = 0) as -> by lia.
    split; eexists; split; vm_compute; reflexivity. }
  destruct (@overshoot_without_candidate int_truth [1; 5]%Z [nan; 50]%float
              3%Z 0 1 5%Z) as [H1 [_ [_ [_ H2]]]].
  - lia.
  - simpl. lia.
  - exact Hp.
  - reflexivity.
  - lia.
  - split; [exact H1|]. apply H2. lia.
Defined.

(** ** A missing value at an exact match *)

Section Candidate.

Variable truthy : Z -> bool.
Variable self_clk : list Z.
Variable llist : list float.
Variable fill_gaps : bool.

(** Every entry of the stored clock is true as a condition: so it is for
    [datetime] entries, and for [int] entries other than [0]. *)
Hypothesis entries_true : forall s, In s self_clk -> truthy s = true.

Lemma held_enter (c0 : nat) : held self_clk llist (enter c0).
Proof.
  reflexivity.
Qed.

(** One pass never turns a non-missing candidate into a missing one. *)
Lemma body_held (c : Z) (i : nat) (st : locals) (fl : flow) :
  held self_clk llist st ->
  body truthy self_clk llist fill_gaps c i st = Ok fl ->
  match fl with
  | Next st' =>
      held self_clk llist st' /\
      (self_eq (v st) = true -> self_eq (v st') = true)
  | Break st' => self_eq (v st) = true -> self_eq (v st') = true
  end.
Proof.
  intros Hheld H. unfold body, remember in H.
  destruct (item self_clk i) as [sc|] eqn:Esc; simpl in H; [|discriminate].
  pose proof (item_In _ _ Esc) as Hin.
  destruct (sc <? c)%Z eqn:E1.
  { destruct (item llist i) as [x|] eqn:Ex; simpl in H; [|discriminate].
    destruct (self_eq x) eqn:Hx; inversion H; subst fl.
    - split; [|intros _; exact Hx].
      unfold held. simpl. repeat split; try assumption. eauto.
    - split; [assumption|tauto]. }
  destruct (sc =? c)%Z eqn:E2.
  { destruct (item llist i) as [x|] eqn:Ex; simpl in H; [|discriminate].
    inversion H; subst fl. intros Hv. rewrite Hv. simpl.
    destruct (self_eq x) eqn:Hx; simpl; assumption. }
  destruct (sc >? c)%Z eqn:E3.
  { destruct (fill_gaps || _).
    - unfold held in Hheld.
      destruct (sc_prev st) as [p|] eqn:Ep; simpl in H.
      + destruct Hheld as [Hp [Hv [k [Hk Hitem]]]].
        rewrite (entries_true p Hp), Hk in H. simpl in H.
        rewrite Hitem in H. simpl in H.
        inversion H; subst fl. simpl. tauto.
      + destruct (item llist i) as [x|]; simpl in H; [|discriminate].
        inversion H; subst fl. intros Hv. congruence.
    - inversion H; subst fl. tauto. }
  apply Z.ltb_ge in E1. apply Z.eqb_neq in E2.
  rewrite Z.gtb_ltb in E3. apply Z.ltb_ge in E3. lia.
Qed.

(** Through a whole scan, a candidate once taken is never replaced by a
    missing value. *)
Lemma candidate_never_lost (c : Z) (n : nat) :
  forall i st st',
    held self_clk llist st -> self_eq (v st) = true ->
    scan truthy self_clk llist fill_gaps c n i st = Ok st' ->
    self_eq (v st') = true.
Proof.
  induction n as [|n IH]; intros i st st' Hheld Hv H; simpl in H.
  - inversion H; subst. exact Hv.
  - destruct (body truthy self_clk llist fill_gaps c i st) as [fl|] eqn:Eb;
      simpl in H; [|discriminate].
    apply (@body_held c i st fl Hheld) in Eb.
    destruct fl as [st1|st1].
    + destruct Eb as [Hheld1 Hkept]. eapply IH; eauto.
    + inversion H; subst. auto.
Qed.

End Candidate.

(** With [int] clock entries the instant [0] is false as a condition, and
    the gap-fill branch then takes the overshooting sample although a
    candidate is held; with [datetime] entries it keeps the candidate. *)
Example zero_instant_is_false :
  _get_data_from_list int_truth [0; 5]%Z [7; nan]%float true [3%Z]
  = Ok [nan] /\
  _get_data_from_list datetime_truth [0; 5]%Z [7; nan]%float true [3%Z]
  = Ok [7]%float.
Proof.
  split; vm_compute; reflexivity.
Qed.

(** C8. When the scan for the clock value [c], started at the cursor
    [c0], has taken the non-missing value [x] at [k] as its candidate
    (every position before [j] has an instant before [c], and those after
    [k] hold missing values), and position [j], whose instant is exactly
    [c], holds a missing value [y], then the value for [c] is the
    candidate [x], not the missing value, and the cursor moves past
    [j]. *)
Theorem exact_match_missing_keeps_candidate (truthy : Z -> bool)
  (self_clk : list Z) (llist : list float) (fill_gaps : bool)
  (c : Z) (c0 k j : nat) (x y : float) :
  c0 <= k -> k < j ->
  (forall p, c0 <= p < j -> earlier self_clk c p) ->
  item llist k = Ok x -> self_eq x = true ->
  (forall p, k < p < j -> missing llist p) ->
  item self_clk j = Ok c -> item llist j = Ok y -> self_eq y = false ->
  exists st,
    align truthy self_clk llist fill_gaps c c0 = Ok st /\
    v st = x /\ c_idx st = S j /\
    forall clk data,
      outer truthy self_clk llist fill_gaps (c :: clk) c0 data
      = outer truthy self_clk llist fill_gaps clk (S j) (data ++ [x]).
Proof.
  intros Hk Hkj Hearlier Hx Hxv Hmiss Hc Hy Hyv.
  pose proof (item_Ok_lt _ _ Hy) as Hjl.
  destruct (@scan_earlier_stretch truthy self_clk llist fill_gaps c
              (k - c0) c0 (enter c0)) as [st1 [Hc1 Hst1]].
  { intros p Hp. apply Hearlier. lia. }
  { lia. }
  destruct (Hearlier k) as [s [Hs Hlt]]; [lia|].
  set (st2 := set_prev s k (set_v x st1)).
  assert (Halign : align truthy self_clk llist fill_gaps c c0
                   = Ok (set_c_idx (S j) st2)).
  { unfold align.
    replace (length llist - c0)
      with ((k - c0) + S ((j - S k) + S (length llist - S j))) by lia.
    rewrite Hst1. replace (c0 + (k - c0)) with k by lia.
    simpl.
    rewrite (@body_earlier truthy self_clk llist fill_gaps c k st1 s x
               Hs Hlt Hx), Hxv.
    simpl. fold st2.
    rewrite scan_missing_stretch.
    - replace (S k + (j - S k)) with j by lia.
      simpl.
      rewrite (@body_match_missing truthy self_clk llist fill_gaps c j st2 y
                 Hc Hy Hyv Hxv).
      reflexivity.
    - intros p Hp. split; [apply Hearlier|apply Hmiss]; lia. }
  exists (set_c_idx (S j) st2). repeat split; try assumption.
  intros clk data. simpl. rewrite Halign. reflexivity.
Qed.

Lemma exact_match_missing_keeps_candidate_witness :
  exists st,
    align int_truth [1; 2; 3]%Z [10; nan; nan]%float false 3 0 = Ok st /\
    v st = 10%float /\ c_idx st = 3.
Proof.
  assert (He : forall p, 0 <= p < 2 -> earlier [1; 2; 3]%Z 3 p).
  { intros p Hp. assert (p = 0 \/ p = 1) as [-> | ->] by lia;
      eexists; split; vm_compute; reflexivity. }
  assert (Hm : forall p, 0 < p < 2 -> missing [10; nan; nan]%float p).
  { intros p Hp. assert (p = 1) as -> by lia.
    eexists; split; vm_compute; reflexivity. }
  destruct (@exact_match_missing_keeps_candidate int_truth [1; 2; 3]%Z
              [10; nan; nan]%float false 3%Z 0 0 2 10%float nan)
    as [st [H1 [H2 [H3 _]]]].
  - lia.
  - lia.
  - exact He.
  - reflexivity.
  - reflexivity.
  - exact Hm.
  - reflexivity.
  - reflexivity.
  - reflexivity.
  - exists st. repeat split; assumption.
Defined.

(** ** Aligning a buffer to its own clock *)

Lemma item_middle (A : Type) (pre suf : list A) (x : A) :
  item (pre ++ x :: suf) (length pre) = Ok x.
Proof.
  unfold item. rewrite nth_error_app2 by lia.
  now rewrite Nat.sub_diag.
Qed.

Lemma outer_own_clock (truthy : Z -> bool) (fill_gaps : bool)
  (suf : list Z) :
  forall (lsuf : list float) (pre : list Z) (lpre data : list float),
    length pre = length lpre -> length suf = length lsuf ->
    outer truthy (pre ++ suf) (lpre ++ lsuf) fill_gaps suf (length pre) data
    = Ok (data ++ lsuf).
Proof.
  induction suf as [|c suf IH]; intros lsuf pre lpre data Hpre Hsuf.
  - destruct lsuf; [|discriminate]. simpl. now rewrite app_nil_r.
  - destruct lsuf as [|x lsuf]; [discriminate|].
    simpl. unfold align.
    replace (length (lpre ++ x :: lsuf) - length pre) with (S (length lsuf))
      by (rewrite length_app; simpl; lia).
    simpl. rewrite (@body_match truthy (pre ++ c :: suf) (lpre ++ x :: lsuf)
                      fill_gaps c (length pre) (enter (length pre)) x).
    + simpl.
      replace (pre ++ c :: suf) with ((pre ++ [c]) ++ suf)
        by (rewrite <- app_assoc; reflexivity).
      replace (lpre ++ x :: lsuf) with ((lpre ++ [x]) ++ lsuf)
        by (rewrite <- app_assoc; reflexivity).
      replace (S (length pre)) with (length (pre ++ [c]))
        by (rewrite length_app; simpl; lia).
      rewrite IH.
      * now rewrite <- app_assoc.
      * rewrite !length_app. simpl. lia.
      * simpl in Hsuf. lia.
    + apply item_middle.
    + rewrite Hpre. apply item_middle.
Qed.

(** C6. Aligning a buffer to its own source clock (no clock given to
    align to, or the stored clock itself; the segment and the stored clock
    in one-to-one correspondence) gives back the values of the segment,
    position for position. *)
Theorem resample_onto_own_clock (truthy : Z -> bool) (self : handler)
  (line llist : list float) (fill_gaps : bool) :
  get_slice_with_end line (start self) (end_ self) = Ok llist ->
  length llist = length (clk self) ->
  get_list_from_line truthy self line None fill_gaps = Ok llist /\
  get_list_from_line truthy self line (Some (clk self)) fill_gaps = Ok llist.
Proof.
  intros Hslice Hlen.
  assert (H : _get_data_from_list truthy (clk self) llist fill_gaps (clk self)
              = Ok llist).
  { unfold _get_data_from_list.
    apply (@outer_own_clock truthy fill_gaps (clk self) llist [] [] []).
    - reflexivity.
    - symmetry. exact Hlen. }
  split; unfold get_list_from_line; rewrite Hslice; simpl; exact H.
Qed.

Lemma resample_onto_own_clock_witness :
  get_list_from_line int_truth (Handler [1; 2; 3]%Z 1 3)
    [5; 10; nan; 30]%float None true
  = Ok [10; nan; 30]%float.
Proof.
  apply (proj1 (@resample_onto_own_clock int_truth (Handler [1; 2; 3]%Z 1 3)
                  [5; 10; nan; 30]%float [10; nan; 30]%float true
                  eq_refl eq_refl)).
Defined.

(** ** [bisect] on a sorted list *)

Lemma sorted_nth_error (a : list Z) :
  Sorted Z.le a ->
  forall i j x y,
    i <= j -> nth_error a i = Some x -> nth_error a j = Some y -> (x <= y)%Z.
Proof.
  intros Hs. apply Sorted_StronglySorted in Hs;
    [|intros u v w Huv Hvw; lia].
  induction Hs as [|z a Hs IH Hall]; intros i j x y Hij Hi Hj.
  - destruct i; discriminate.
  - destruct i as [|i], j as [|j]; simpl in *.
    + inversion Hi; inversion Hj; subst. lia.
    + inversion Hi; subst. rewrite Forall_forall in Hall.
      apply Hall. eapply nth_error_In; eassumption.
    + lia.
    + eapply IH; [|eassumption|eassumption]. lia.
Qed.

Lemma midpoint (lo hi : nat) :
  lo < hi -> lo <= (lo + hi) / 2 < hi.
Proof.
  intros H.
  pose proof (Nat.div_mod_eq (lo + hi) 2) as Hd.
  pose proof (Nat.mod_upper_bound (lo + hi) 2) as Hm.
  lia.
Qed.

Lemma left_loop_step (a : list Z) (x : Z) (lo hi : nat) :
  lo < hi ->
  bisect.left_loop a x lo hi
  = match item a ((lo + hi) / 2) with
    | Ok y =>
        if (y <? x)%Z
        then bisect.left_loop a x (S ((lo + hi) / 2)) hi
        else bisect.left_loop a x lo ((lo + hi) / 2)
    | Raise e => Raise e
    end.
Proof.
  intros H. rewrite bisect.left_loop_equation_1.
  destruct (lt_dec lo hi); [reflexivity|contradiction].
Qed.

Lemma left_loop_done (a : list Z) (x : Z) (lo hi : nat) :
  ~ lo < hi -> bisect.left_loop a x lo hi = Ok lo.
Proof.
  intros H. rewrite bisect.left_loop_equation_1.
  destruct (lt_dec lo hi); [contradiction|reflexivity].
Qed.

Lemma right_loop_step (a : list Z) (x : Z) (lo hi : nat) :
  lo < hi ->
  bisect.right_loop a x lo hi
  = match item a ((lo + hi) / 2) with
    | Ok y =>
        if (x <? y)%Z
        then bisect.right_loop a x lo ((lo + hi) / 2)
        else bisect.right_loop a x (S ((lo + hi) / 2)) hi
    | Raise e => Raise e
    end.
Proof.
  intros H. rewrite bisect.right_loop_equation_1.
  destruct (lt_dec lo hi); [reflexivity|contradiction].
Qed.

Lemma right_loop_done (a : list Z) (x : Z) (lo hi : nat) :
  ~ lo < hi -> bisect.right_loop a x lo hi = Ok lo.
Proof.
  intros H. rewrite bisect.right_loop_equation_1.
  destruct (lt_dec lo hi); [contradiction|reflexivity].
Qed.

Section Bisect.

Variable a : list Z.
Hypothesis a_sorted : Sorted Z.le a.
Variable x : Z.

(** The loop of [bisect_left] keeps: entries before [lo] are [< x],
    entries from [hi] on are [>= x]. *)
Lemma left_loop_spec (n : nat) :
  forall lo hi,
    hi - lo <= n -> lo <= hi <= length a ->
    (forall p y, p < lo -> nth_error a p = Some y -> (y < x)%Z) ->
    (forall p y, hi <= p -> nth_error a p = Some y -> (x <= y)%Z) ->
    exists k,
      bisect.left_loop a x lo hi = Ok k /\ k <= length a /\
      (forall p y, p < k -> nth_error a p = Some y -> (y < x)%Z) /\
      (forall p y, k <= p -> nth_error a p = Some y -> (x <= y)%Z).
Proof.
  induction n as [|n IH]; intros lo hi Hn Hb Hlo Hhi.
  - rewrite left_loop_done by lia.
    exists lo. repeat split; try lia; try assumption.
    intros p y Hp. apply Hhi. lia.
  - destruct (lt_dec lo hi) as [Hlt|Hge].
    + rewrite (left_loop_step a x Hlt).
      pose proof (midpoint Hlt) as Hmid.
      set (mid := (lo + hi) / 2) in *.
      assert (Hml : mid < length a) by lia.
      destruct (item_in_bounds a Hml) as [z Hz]. rewrite Hz.
      apply item_Ok in Hz.
      destruct (z <? x)%Z eqn:E.
      * apply Z.ltb_lt in E. apply IH; try lia; try assumption.
        intros p y Hp Hy.
        pose proof (@sorted_nth_error a a_sorted p mid y z) as Hle.
        specialize (Hle ltac:(lia) Hy Hz). lia.
      * apply Z.ltb_ge in E. apply IH; try lia; try assumption.
        intros p y Hp Hy.
        pose proof (@sorted_nth_error a a_sorted mid p z y) as Hle.
        specialize (Hle ltac:(lia) Hz Hy). lia.
    + rewrite left_loop_done by assumption.
      exists lo. repeat split; try lia; try assumption.
      intros p y Hp. apply Hhi. lia.
Qed.

(** The loop of [bisect_right] keeps: entries before [lo] are [<= x],
    entries from [hi] on are [> x]. *)
Lemma right_loop_spec (n : nat) :
  forall lo hi,
    hi - lo <= n -> lo <= hi <= length a ->
    (forall p y, p < lo -> nth_error a p = Some y -> (y <= x)%Z) ->
    (forall p y, hi <= p -> nth_error a p = Some y -> (x < y)%Z) ->
    exists k,
      bisect.right_loop a x lo hi = Ok k /\ k <= length a /\
      (forall p y, p < k -> nth_error a p = Some y -> (y <= x)%Z) /\
      (forall p y, k <= p -> nth_error a p = Some y -> (x < y)%Z).
Proof.
  induction n as [|n IH]; intros lo hi Hn Hb Hlo Hhi.
  - rewrite right_loop_done by lia.
    exists lo. repeat split; try lia; try assumption.
    intros p y Hp. apply Hhi. lia.
  - destruct (lt_dec lo hi) as [Hlt|Hge].
    + rewrite (right_loop_step a x Hlt).
      pose proof (midpoint Hlt) as Hmid.
      set (mid := (lo + hi) / 2) in *.
      assert (Hml : mid < length a) by lia.
      destruct (item_in_bounds a Hml) as [z Hz]. rewrite Hz.
      apply item_Ok in Hz.
      destruct (x <? z)%Z eqn:E.
      * apply Z.ltb_lt in E. apply IH; try lia; try assumption.
        intros p y Hp Hy.
        pose proof (@sorted_nth_error a a_sorted mid p z y) as Hle.
        specialize (Hle ltac:(lia) Hz Hy). lia.
      * apply Z.ltb_ge in E. apply IH; try lia; try assumption.
        intros p y Hp Hy.
        pose proof (@sorted_nth_error a a_sorted p mid y z) as Hle.
        specialize (Hle ltac:(lia) Hy Hz). lia.
    + rewrite right_loop_done by assumption.
      exists lo. repeat split; try lia; try assumption.
      intros p y Hp. apply Hhi. lia.
Qed.

Lemma bisect_left_spec :
  exists k,
    bisect.bisect_left a x = Ok k /\
    leftmost_at_or_after a x (Z.of_nat k).
Proof.
  destruct (@left_loop_spec (length a) 0 (length a)) as [k [Hk [Hb [Hl Hr]]]].
  - lia.
  - lia.
  - intros p y Hp. lia.
  - intros p y Hp Hy.
    assert (p < length a) by (apply nth_error_Some; congruence). lia.
  - exists k. split; [exact Hk|]. split; [lia|].
    intros p y Hy. split; intros H.
    + destruct (le_lt_dec k p) as [Hkp|Hkp]; [lia|].
      specialize (Hl p y Hkp Hy). lia.
    + apply (Hr p y); [lia|assumption].
Qed.

Lemma bisect_right_spec :
  exists k,
    bisect.bisect_right a x = Ok k /\
    rightmost_at_or_before a x (Z.of_nat k - 1).
Proof.
  destruct (@right_loop_spec (length a) 0 (length a)) as [k [Hk [Hb [Hl Hr]]]].
  - lia.
  - lia.
  - intros p y Hp. lia.
  - intros p y Hp Hy.
    assert (p < length a) by (apply nth_error_Some; congruence). lia.
  - exists k. split; [exact Hk|]. split; [lia|].
    intros p y Hy. split; intros H.
    + destruct (le_lt_dec k p) as [Hkp|Hkp]; [|lia].
      specialize (Hr p y Hkp Hy). lia.
    + apply (Hl p y); [lia|assumption].
Qed.

End Bisect.

(** ** [_get_clock_range] *)

Ltac resolve_bisect Hs :=
  repeat match goal with
    | |- context [bisect.bisect_left ?a ?t] =>
        let k := fresh "k" in
        let H := fresh "Hleft" in
        destruct (@bisect_left_spec a Hs t) as [k [-> H]]
    | |- context [bisect.bisect_right ?a ?t] =>
        let k := fresh "k" in
        let H := fresh "Hright" in
        destruct (@bisect_right_spec a Hs t) as [k [-> H]]
    end.

Ltac resolve_back back :=
  simpl;
  try match goal with
    | |- context [match back with Some _ => _ | None => _ end] =>
        destruct back as [b|]; [destruct (int_truth b)|]
    end;
  eauto.

(** C9. Over a sorted decoded clock [arr], a [datetime] given as [start]
    resolves to the leftmost position whose instant is at or after it
    ([len(arr)] when there is none), and a [datetime] given as [end] to the
    rightmost position whose instant is at or before it ([-1] when there
    is none); an absent [start] resolves to [0] and an absent [end] to
    [len(arr) - 1], the last index. ([start] is the one resolved from
    the argument when no [back] is given.) *)
Theorem resolve_range_spec (arr : list Z) :
  Sorted Z.le arr ->
  (forall t end_, exists s e,
     ClockGenerator._get_clock_range arr (ClockGenerator.DatetimeArg t)
       end_ None = Ok (s, e) /\
     leftmost_at_or_after arr t s) /\
  (forall t start back, exists s e,
     ClockGenerator._get_clock_range arr start (ClockGenerator.DatetimeArg t)
       back = Ok (s, e) /\
     rightmost_at_or_before arr t e) /\
  (forall end_, exists e,
     ClockGenerator._get_clock_range arr ClockGenerator.NoneArg end_ None
     = Ok (0%Z, e)) /\
  (forall start back, exists s,
     ClockGenerator._get_clock_range arr start ClockGenerator.NoneArg back
     = Ok (s, (Z.of_nat (length arr) - 1)%Z)).
Proof.
  intros Hs. repeat split.
  - intros t end_. unfold ClockGenerator._get_clock_range.
    destruct end_; resolve_bisect Hs; simpl; eauto.
  - intros t start back. unfold ClockGenerator._get_clock_range.
    destruct start; resolve_bisect Hs; resolve_back back.
  - intros end_. unfold ClockGenerator._get_clock_range.
    destruct end_; resolve_bisect Hs; simpl; eauto.
  - intros start back. unfold ClockGenerator._get_clock_range.
    destruct start; resolve_bisect Hs; resolve_back back.
Qed.

Lemma resolve_range_spec_witness :
  (exists s e,
     ClockGenerator._get_clock_range [1; 3; 3; 5]%Z
       (ClockGenerator.DatetimeArg 3) (ClockGenerator.DatetimeArg 3) None
     = Ok (s, e) /\
     leftmost_at_or_after [1; 3; 3; 5]%Z 3 s) /\
  (exists s e,
     ClockGenerator._get_clock_range [1; 3; 3; 5]%Z
       (ClockGenerator.DatetimeArg 3) (ClockGenerator.DatetimeArg 3) None
     = Ok (s, e) /\
     rightmost_at_or_before [1; 3; 3; 5]%Z 3 e).
Proof.
  assert (Hs : Sorted Z.le [1; 3; 3; 5]%Z).
  { repeat constructor; lia. }
  destruct (@resolve_range_spec [1; 3; 3; 5]%Z Hs) as [H1 [H2 _]].
  split.
  - apply H1.
  - apply H2.
Defined.

(** On the clock [1,3,3,5], the instant 3 as [start] and as [end] gives
    the range [(1, 2)]. *)
Example _get_clock_range_example :
  ClockGenerator._get_clock_range [1; 3; 3; 5]%Z
    (ClockGenerator.DatetimeArg 3) (ClockGenerator.DatetimeArg 3) None
  = Ok (1%Z, 2%Z).
Proof.
  reflexivity.
Qed.

(** * Further properties *)

(** ** Inclusive slices *)

Lemma slice_length (A : Type) (data : list A) (s e : Z) :
  length (slice data s e)
  = Z.to_nat (adjust (Z.of_nat (length data)) e
              - adjust (Z.of_nat (length data)) s).
Proof.
  unfold slice. rewrite length_firstn, length_skipn.
  unfold adjust.
  destruct (Z.ltb_spec e 0), (Z.ltb_spec s 0); lia.
Qed.

Lemma get_slice_with_end_length (A : Type) (data : list A) (s e : Z) :
  exists l,
    get_slice_with_end data s e = Ok l /\
    length l = inclusive_length (Z.of_nat (length data)) s e.
Proof.
  unfold get_slice_with_end, inclusive_length.
  destruct (e >=? s)%Z eqn:Ese; simpl; [|eauto].
  destruct (getitem_cases data e) as [[x [Hx Hb]]|[Hx Hb]]; rewrite Hx; simpl.
  - exists (slice data s e ++ [x]). split; [reflexivity|].
    rewrite length_app, slice_length. simpl.
    destruct (- Z.of_nat (length data) <=? e)%Z eqn:E1; [|lia].
    destruct (e <? Z.of_nat (length data))%Z eqn:E2; [|lia].
    reflexivity.
  - exists []. split; [reflexivity|].
    destruct (- Z.of_nat (length data) <=? e)%Z eqn:E1;
      destruct (e <? Z.of_nat (length data))%Z eqn:E2; simpl; try reflexivity.
    lia.
Qed.

(** For positions [0 <= start], [-1 <= end < len(data)] the result is the
    elements at [start .. end], none when [end < start]. *)
Lemma get_slice_with_end_segment (A : Type) (data : list A) (s e : Z) :
  (0 <= s)%Z -> (-1 <= e < Z.of_nat (length data))%Z ->
  get_slice_with_end data s e
  = Ok (firstn (Z.to_nat (e + 1 - s)) (skipn (Z.to_nat s) data)).
Proof.
  intros Hs He.
  destruct (Z_lt_le_dec e s) as [Hlt|Hle].
  - unfold get_slice_with_end.
    destruct (e >=? s)%Z eqn:E; [lia|].
    replace (Z.to_nat (e + 1 - s)) with 0 by lia. reflexivity.
  - pose proof (@get_slice_with_end_inclusive A data (Z.to_nat s) (Z.to_nat e))
      as H.
    rewrite !Z2Nat.id in H by lia. rewrite H by lia.
    do 2 f_equal. lia.
Qed.

(** X1. For [0 <= start <= end < len(data)], [get_slice_with_end] gives
    the [end - start + 1] elements at the positions [start .. end], in
    order: the element at [end] is included. *)
Theorem inclusive_slice_elements (A : Type) (data : list A) (s e : nat) :
  s <= e -> e < length data ->
  exists l,
    get_slice_with_end data (Z.of_nat s) (Z.of_nat e) = Ok l /\
    length l = e - s + 1 /\
    forall j, j <= e - s -> nth_error l j = nth_error data (s + j).
Proof.
  intros Hse He.
  exists (firstn (e - s + 1) (skipn s data)). split; [|split].
  - now apply get_slice_with_end_inclusive.
  - rewrite length_firstn, length_skipn. lia.
  - intros j Hj. rewrite nth_error_firstn.
    destruct (j <? e - s + 1) eqn:E.
    + apply nth_error_skipn.
    + apply Nat.ltb_ge in E. lia.
Qed.

Lemma inclusive_slice_elements_witness :
  exists l,
    get_slice_with_end [10; 20; 30; 40]%Z (Z.of_nat 1) (Z.of_nat 3) = Ok l /\
    length l = 3 - 1 + 1 /\
    forall j, j <= 3 - 1 -> nth_error l j = nth_error [10; 20; 30; 40]%Z (1 + j).
Proof.
  apply (@inclusive_slice_elements Z [10; 20; 30; 40]%Z 1 3).
  - lia.
  - simpl. lia.
Defined.

(** X2. The length of the slice depends on the length of the sequence
    only: two sequences of the same length, sliced with the same [start]
    and [end], give slices of the same length. *)
Theorem inclusive_slice_same_length (A B : Type) (d1 : list A) (d2 : list B)
  (s e : Z) :
  length d1 = length d2 ->
  exists l1 l2,
    get_slice_with_end d1 s e = Ok l1 /\
    get_slice_with_end d2 s e = Ok l2 /\
    length l1 = length l2.
Proof.
  intros Hlen.
  destruct (get_slice_with_end_length d1 s e) as [l1 [H1 Hl1]].
  destruct (get_slice_with_end_length d2 s e) as [l2 [H2 Hl2]].
  exists l1, l2. repeat split; try assumption.
  rewrite Hl1, Hl2, Hlen. reflexivity.
Qed.

Lemma inclusive_slice_same_length_witness :
  exists l1 l2,
    get_slice_with_end [1; 2; 3]%Z (-2) 2 = Ok l1 /\
    get_slice_with_end [true; false; true] (-2) 2 = Ok l2 /\
    length l1 = length l2.
Proof.
  apply (@inclusive_slice_same_length Z bool [1; 2; 3]%Z [true; false; true]
           (-2) 2).
  reflexivity.
Defined.

(** ** [bisect] on any list *)

Lemma left_loop_total (a : list Z) (x : Z) (n : nat) :
  forall lo hi,
    hi - lo <= n -> lo <= hi <= length a ->
    exists k, bisect.left_loop a x lo hi = Ok k /\ lo <= k <= hi.
Proof.
  induction n as [|n IH]; intros lo hi Hn Hb.
  - rewrite left_loop_done by lia. exists lo. split; [reflexivity|lia].
  - destruct (lt_dec lo hi) as [Hlt|Hge].
    + rewrite (left_loop_step a x Hlt).
      pose proof (midpoint Hlt) as Hmid.
      set (mid := (lo + hi) / 2) in *.
      assert (Hml : mid < length a) by lia.
      destruct (item_in_bounds a Hml) as [z ->].
      destruct (z <? x)%Z.
      * destruct (IH (S mid) hi) as [k [Hk Hkb]]; try lia.
        exists k. split; [exact Hk|lia].
      * destruct (IH lo mid) as [k [Hk Hkb]]; try lia.
        exists k. split; [exact Hk|lia].
    + rewrite left_loop_done by assumption.
      exists lo. split; [reflexivity|lia].
Qed.

Lemma right_loop_total (a : list Z) (x : Z) (n : nat) :
  forall lo hi,
    hi - lo <= n -> lo <= hi <= length a ->
    exists k, bisect.right_loop a x lo hi = Ok k /\ lo <= k <= hi.
Proof.
  induction n as [|n IH]; intros lo hi Hn Hb.
  - rewrite right_loop_done by lia. exists lo. split; [reflexivity|lia].
  - destruct (lt_dec lo hi) as [Hlt|Hge].
    + rewrite (right_loop_step a x Hlt).
      pose proof (midpoint Hlt) as Hmid.
      set (mid := (lo + hi) / 2) in *.
      assert (Hml : mid < length a) by lia.
      destruct (item_in_bounds a Hml) as [z ->].
      destruct (x <? z)%Z.
      * destruct (IH lo mid) as [k [Hk Hkb]]; try lia.
        exists k. split; [exact Hk|lia].
      * destruct (IH (S mid) hi) as [k [Hk Hkb]]; try lia.
        exists k. split; [exact Hk|lia].
    + rewrite right_loop_done by assumption.
      exists lo. split; [reflexivity|lia].
Qed.

Lemma bisect_left_total (a : list Z) (x : Z) :
  exists k, bisect.bisect_left a x = Ok k /\ k <= length a.
Proof.
  destruct (@left_loop_total a x (length a) 0 (length a)) as [k [Hk Hb]];
    try lia.
  exists k. split; [exact Hk|lia].
Qed.

Lemma bisect_right_total (a : list Z) (x : Z) :
  exists k, bisect.bisect_right a x = Ok k /\ k <= length a.
Proof.
  destruct (@right_loop_total a x (length a) 0 (length a)) as [k [Hk Hb]];
    try lia.
  exists k. split; [exact Hk|lia].
Qed.

Ltac run_bisect :=
  repeat match goal with
    | |- context [bisect.bisect_left ?a ?t] =>
        let k := fresh "k" in
        let H := fresh "Hk" in
        destruct (bisect_left_total a t) as [k [-> H]]
    | |- context [bisect.bisect_right ?a ?t] =>
        let k := fresh "k" in
        let H := fresh "Hk" in
        destruct (bisect_right_total a t) as [k [-> H]]
    end.

(** ** [_get_clock_range] and [get_clock] *)

(** The end of the range does not depend on [start] and [back], and is
    at most the last index when it comes from [None] or a [datetime]. *)
Lemma _get_clock_range_end (arr : list Z) (end_ : ClockGenerator.limit) :
  exists e,
    (forall i, end_ = ClockGenerator.IntArg i -> e = i) /\
    (end_ = ClockGenerator.NoneArg -> e = (Z.of_nat (length arr) - 1)%Z) /\
    (forall start, exists s,
       ClockGenerator._get_clock_range arr start end_ None = Ok (s, e)) /\
    (forall start b, b <> 0%Z ->
       ClockGenerator._get_clock_range arr start end_ (Some b)
       = Ok (Z.max 0 (e - b + 1), e)) /\
    (forall start,
       ClockGenerator._get_clock_range arr start end_ (Some 0%Z)
       = ClockGenerator._get_clock_range arr start end_ None).
Proof.
  assert (Hb : forall b, b <> 0%Z -> int_truth b = true).
  { intros b Hb. unfold int_truth. apply Z.eqb_neq in Hb. now rewrite Hb. }
  destruct end_ as [|i|t].
  - exists (Z.of_nat (length arr) - 1)%Z. repeat split; try congruence.
    + intros start. unfold ClockGenerator._get_clock_range.
      destruct start; run_bisect; simpl; eauto.
    + intros start b Hnz. unfold ClockGenerator._get_clock_range.
      destruct start; run_bisect; simpl; now rewrite (Hb b Hnz).
  - exists i. repeat split; try congruence.
    + intros start. unfold ClockGenerator._get_clock_range.
      destruct start; run_bisect; simpl; eauto.
    + intros start b Hnz. unfold ClockGenerator._get_clock_range.
      destruct start; run_bisect; simpl; now rewrite (Hb b Hnz).
  - destruct (bisect_right_total arr t) as [k [Hk Hkb]].
    exists (Z.of_nat k - 1)%Z. repeat split; try congruence.
    + intros start. unfold ClockGenerator._get_clock_range. rewrite Hk.
      destruct start; run_bisect; simpl; eauto.
    + intros start b Hnz. unfold ClockGenerator._get_clock_range. rewrite Hk.
      destruct start; run_bisect; simpl; now rewrite (Hb b Hnz).
Qed.

(** X3. When a non-zero [back] is given, [start] is overridden: whatever
    was passed as [start], the range is [(max(0, end - back + 1), end)],
    with [end] resolved as without [back]; [back=0] counts as not given. *)
Theorem back_overrides_start (arr : list Z) (end_ : ClockGenerator.limit) :
  exists e,
    (forall start, exists s,
       ClockGenerator._get_clock_range arr start end_ None = Ok (s, e)) /\
    (forall start b, b <> 0%Z ->
       ClockGenerator._get_clock_range arr start end_ (Some b)
       = Ok (Z.max 0 (e - b + 1), e)) /\
    (forall start,
       ClockGenerator._get_clock_range arr start end_ (Some 0%Z)
       = ClockGenerator._get_clock_range arr start end_ None).
Proof.
  destruct (_get_clock_range_end arr end_) as [e [_ [_ H]]].
  exists e. exact H.
Qed.

(** X4. [_get_clock_range] and [get_clock] raise nothing, whatever the
    raw buffer and the arguments, sorted clock or not. *)
Theorem get_clock_total (num2date : float -> Z) (raw : list float)
  (start end_ : ClockGenerator.limit) (back : option Z) :
  (exists s e,
     ClockGenerator._get_clock_range
       (ClockGenerator._get_clock_array num2date raw) start end_ back
     = Ok (s, e)) /\
  (exists arr s e,
     ClockGenerator.get_clock num2date raw start end_ back = Ok (arr, s, e)).
Proof.
  set (arr := ClockGenerator._get_clock_array num2date raw).
  assert (H : exists s e,
             ClockGenerator._get_clock_range arr start end_ back = Ok (s, e)).
  { destruct (_get_clock_range_end arr end_) as [e [_ [_ [H1 [H2 H3]]]]].
    destruct back as [b|].
    - destruct (Z.eq_dec b 0) as [->|Hnz].
      + rewrite H3. destruct (H1 start) as [s Hs]. eauto.
      + rewrite (H2 start b Hnz). eauto.
    - destruct (H1 start) as [s Hs]. eauto. }
  split; [exact H|].
  destruct H as [s [e H]].
  unfold ClockGenerator.get_clock. fold arr. rewrite H. simpl.
  destruct (get_slice_with_end_length arr s e) as [l [-> _]]. simpl. eauto.
Qed.

(** X5. With no [start], no [end] and no [back], [get_clock] returns the
    whole decoded clock with the range [(0, len - 1)]; for an empty clock
    that is the empty list with [(0, -1)]. *)
Theorem get_clock_whole (num2date : float -> Z) (raw : list float) :
  ClockGenerator.get_clock num2date raw ClockGenerator.NoneArg
    ClockGenerator.NoneArg None
  = Ok (ClockGenerator._get_clock_array num2date raw, 0%Z,
        (Z.of_nat (length (ClockGenerator._get_clock_array num2date raw)) - 1)%Z).
Proof.
  unfold ClockGenerator.get_clock.
  set (arr := ClockGenerator._get_clock_array num2date raw).
  unfold ClockGenerator._get_clock_range. simpl.
  rewrite get_slice_with_end_segment by lia. simpl.
  replace (Z.to_nat (Z.of_nat (length arr) - 1 + 1 - 0)) with (length arr)
    by lia.
  now rewrite firstn_all.
Qed.

(** X6. With [back = b >= 1] and no [end], [get_clock] returns the last
    [b] entries of the decoded clock (all of them when there are fewer),
    whatever [start] is, with the range [(max(0, len - b), len - 1)]. *)
Theorem get_clock_back (num2date : float -> Z) (raw : list float)
  (start : ClockGenerator.limit) (b : Z) :
  (1 <= b)%Z ->
  let arr := ClockGenerator._get_clock_array num2date raw in
  ClockGenerator.get_clock num2date raw start ClockGenerator.NoneArg (Some b)
  = Ok (skipn (length arr - Z.to_nat b) arr,
        Z.max 0 (Z.of_nat (length arr) - b),
        (Z.of_nat (length arr) - 1)%Z) /\
  length (skipn (length arr - Z.to_nat b) arr)
  = Nat.min (Z.to_nat b) (length arr).
Proof.
  intros Hb arr. split.
  - unfold ClockGenerator.get_clock. fold arr.
    destruct (_get_clock_range_end arr ClockGenerator.NoneArg)
      as [e [_ [He [_ [H _]]]]].
    rewrite (H start b) by lia. rewrite (He eq_refl). simpl.
    rewrite get_slice_with_end_segment by lia. simpl.
    replace (Z.of_nat (length arr) - 1 - b + 1)%Z
      with (Z.of_nat (length arr) - b)%Z by lia.
    do 3 f_equal.
    replace (Z.to_nat (Z.max 0 (Z.of_nat (length arr) - b)))
      with (length arr - Z.to_nat b) by lia.
    apply firstn_all2. rewrite length_skipn. lia.
  - rewrite length_skipn. lia.
Qed.

Lemma get_clock_back_witness :
  ClockGenerator.get_clock (fun x => 0%Z) [1; nan; 2; 3]%float
    (ClockGenerator.IntArg 7) ClockGenerator.NoneArg (Some 2%Z)
  = Ok ([0; 0]%Z, 1%Z, 2%Z).
Proof.
  apply (proj1 (@get_clock_back (fun x => 0%Z) [1; nan; 2; 3]%float
                  (ClockGenerator.IntArg 7) 2%Z ltac:(lia))).
Defined.

(** X7. With a negative [back] the range has [start > end] and
    [get_clock] returns an empty clock. *)
Theorem get_clock_negative_back (num2date : float -> Z) (raw : list float)
  (start end_ : ClockGenerator.limit) (b : Z) :
  (b < 0)%Z ->
  exists s e,
    ClockGenerator.get_clock num2date raw start end_ (Some b)
    = Ok ([], s, e) /\ (e < s)%Z.
Proof.
  intros Hb. unfold ClockGenerator.get_clock.
  set (arr := ClockGenerator._get_clock_array num2date raw).
  destruct (_get_clock_range_end arr end_) as [e [_ [_ [_ [H _]]]]].
  rewrite (H start b) by lia. simpl.
  exists (Z.max 0 (e - b + 1)), e. split; [|lia].
  unfold get_slice_with_end.
  destruct (e >=? Z.max 0 (e - b + 1))%Z eqn:E; [lia|]. reflexivity.
Qed.

Lemma get_clock_negative_back_witness :
  exists s e,
    ClockGenerator.get_clock (fun x => 0%Z) [1; 2; 3]%float
      ClockGenerator.NoneArg ClockGenerator.NoneArg (Some (-1)%Z)
    = Ok ([], s, e) /\ (e < s)%Z.
Proof.
  apply (@get_clock_negative_back (fun x => 0%Z) [1; 2; 3]%float
           ClockGenerator.NoneArg ClockGenerator.NoneArg (-1)%Z).
  lia.
Defined.

(** When the positions [s .. e] of a list are those of the entries that
    pass a test, filtering by the test gives the segment at [s .. e]. *)
Lemma filter_segment (P : Z -> bool) (l : list Z) :
  forall s e : Z,
    (0 <= s)%Z ->
    (forall p y, nth_error l p = Some y ->
       (P y = true <-> (s <= Z.of_nat p <= e)%Z)) ->
    filter P l = firstn (Z.to_nat (e + 1 - s)) (skipn (Z.to_nat s) l).
Proof.
  induction l as [|y l IH]; intros s e Hs H.
  - now rewrite skipn_nil, firstn_nil.
  - pose proof (H 0 y eq_refl) as H0. simpl in H0.
    assert (Hl : forall s' e', (s' = s - 1)%Z -> (e' = e - 1)%Z ->
              forall p z, nth_error l p = Some z ->
                (P z = true <-> (s' <= Z.of_nat p <= e')%Z)).
    { intros s' e' -> -> p z Hz. rewrite (H (S p) z Hz). lia. }
    simpl. destruct (Z.eq_dec s 0) as [->|Hnz].
    + destruct (Z_le_gt_dec 0 e) as [He|He].
      * assert (Hy : P y = true) by (apply H0; lia). rewrite Hy.
        replace (Z.to_nat (e + 1 - 0)) with (S (Z.to_nat e)) by lia.
        simpl. f_equal.
        rewrite (IH 0%Z (e - 1)%Z); [f_equal; lia|lia|].
        intros p z Hz. rewrite (Hl (-1)%Z (e - 1)%Z) by (lia || eassumption).
        lia.
      * destruct (P y) eqn:Hy; [pose proof (proj1 H0 eq_refl); lia|].
        replace (Z.to_nat (e + 1 - 0)) with 0 by lia. simpl.
        rewrite (IH 0%Z (e - 1)%Z); [|lia|].
        -- replace (Z.to_nat (e - 1 + 1 - 0)) with 0 by lia. reflexivity.
        -- intros p z Hz.
           rewrite (Hl (-1)%Z (e - 1)%Z) by (lia || eassumption). lia.
    + destruct (P y) eqn:Hy; [pose proof (proj1 H0 eq_refl); lia|].
      replace (Z.to_nat s) with (S (Z.to_nat (s - 1))) by lia. simpl.
      rewrite (IH (s - 1)%Z (e - 1)%Z); [f_equal; lia|lia|].
      intros p z Hz. apply Hl; (lia || assumption).
Qed.

(** X8. On a sorted decoded clock, [get_clock] with a [datetime] [start]
    and a [datetime] [end] returns exactly the entries of the clock from
    [start] to [end], both included, in order, with the range of their
    positions (leftmost position at or after [start], rightmost position
    at or before [end]). *)
Theorem get_clock_between (num2date : float -> Z) (raw : list float)
  (t1 t2 : Z) :
  let arr := ClockGenerator._get_clock_array num2date raw in
  Sorted Z.le arr ->
  exists s e,
    ClockGenerator.get_clock num2date raw (ClockGenerator.DatetimeArg t1)
      (ClockGenerator.DatetimeArg t2) None
    = Ok (filter (fun y => (t1 <=? y)%Z && (y <=? t2)%Z) arr, s, e) /\
    leftmost_at_or_after arr t1 s /\
    rightmost_at_or_before arr t2 e.
Proof.
  intros arr Hs.
  destruct (@bisect_left_spec arr Hs t1) as [k1 [Hk1 [Hb1 Hl]]].
  destruct (@bisect_right_spec arr Hs t2) as [k2 [Hk2 [Hb2 Hr]]].
  exists (Z.of_nat k1), (Z.of_nat k2 - 1)%Z. split; [|split].
  - unfold ClockGenerator.get_clock. fold arr.
    unfold ClockGenerator._get_clock_range. rewrite Hk1, Hk2. simpl.
    rewrite get_slice_with_end_segment by lia. simpl.
    do 3 f_equal. symmetry. apply filter_segment; [lia|].
    intros p y Hy. rewrite andb_true_iff, Z.leb_le, Z.leb_le.
    rewrite (Hl p y Hy), (Hr p y Hy). lia.
  - split; assumption.
  - split; assumption.
Qed.

Lemma get_clock_between_witness :
  exists s e,
    ClockGenerator.get_clock
      (fun x => if (x <? 15)%float then 1%Z
                else if (x <? 25)%float then 3%Z else 5%Z)
      [10; 20; nan; 21; 30]%float
      (ClockGenerator.DatetimeArg 2) (ClockGenerator.DatetimeArg 4) None
    = Ok (filter (fun y => (2 <=? y)%Z && (y <=? 4)%Z) [1; 3; 3; 5]%Z, s, e) /\
    leftmost_at_or_after [1; 3; 3; 5]%Z 2 s /\
    rightmost_at_or_before [1; 3; 3; 5]%Z 4 e.
Proof.
  apply (@get_clock_between
           (fun x => if (x <? 15)%float then 1%Z
                     else if (x <? 25)%float then 3%Z else 5%Z)
           [10; 20; nan; 21; 30]%float 2%Z 4%Z).
  vm_compute. repeat constructor; discriminate.
Defined.

(** ** The decoded clock and the raw buffer *)

Lemma getitem_nat (A : Type) (l : list A) (i : nat) :
  getitem l (Z.of_nat i) = item l i.
Proof.
  unfold getitem.
  destruct (Z.ltb_spec (Z.of_nat i) 0) as [H|H]; [lia|].
  destruct (Z.ltb_spec (Z.of_nat i) 0) as [H'|H']; [lia|].
  now rewrite Nat2Z.id.
Qed.

Lemma filter_prefix (A : Type) (P : A -> bool) (l : list A) :
  forall idx,
    (forall j x, j <= idx -> nth_error l j = Some x -> P x = true) ->
    nth_error (filter P l) idx = nth_error l idx.
Proof.
  induction l as [|y l IH]; intros idx H.
  - reflexivity.
  - simpl. rewrite (H 0 y (Nat.le_0_l idx) eq_refl).
    destruct idx as [|idx]; [reflexivity|]. simpl.
    apply IH. intros j x Hj Hx. apply (H (S j) x); [lia|exact Hx].
Qed.

Lemma filter_length_all (A : Type) (P : A -> bool) (l : list A) :
  length (filter P l) = length l <-> Forall (fun x => P x = true) l.
Proof.
  induction l as [|y l IH]; simpl.
  - split; [constructor|reflexivity].
  - pose proof (filter_length_le P l) as Hle.
    destruct (P y) eqn:Hy; simpl; split; intros H.
    + constructor; [assumption|]. apply IH. lia.
    + inversion H; subst. f_equal. now apply IH.
    + lia.
    + inversion H; subst. congruence.
Qed.

Lemma filter_all (A : Type) (P : A -> bool) (l : list A) :
  Forall (fun x => P x = true) l -> filter P l = l.
Proof.
  induction 1 as [|y l Hy Hl IH]; simpl; [reflexivity|].
  now rewrite Hy, IH.
Qed.

(** X9. The decoded clock is never longer than the raw buffer, and as
    long exactly when no raw entry is [nan]; it is then the raw buffer
    decoded entry by entry, position for position. *)
Theorem decoded_clock_length (num2date : float -> Z) (raw : list float) :
  length (ClockGenerator._get_clock_array num2date raw) <= length raw /\
  (length (ClockGenerator._get_clock_array num2date raw) = length raw <->
   Forall (fun x => self_eq x = true) raw) /\
  (Forall (fun x => self_eq x = true) raw ->
   ClockGenerator._get_clock_array num2date raw = map num2date raw).
Proof.
  unfold ClockGenerator._get_clock_array. rewrite length_map.
  split; [apply filter_length_le|]. split.
  - apply filter_length_all.
  - intros H. now rewrite filter_all.
Qed.

(** X10. Up to the first [nan] of the raw buffer, a raw index and a
    position of the decoded clock name the same instant:
    [get_clock_time_at_idx(idx)] is the entry [idx] of the decoded
    clock. *)
Theorem get_clock_time_at_idx_decoded (num2date : float -> Z)
  (raw : list float) (idx : nat) :
  idx < length raw ->
  (forall j x, j <= idx -> nth_error raw j = Some x -> self_eq x = true) ->
  exists t,
    ClockGenerator.get_clock_time_at_idx num2date raw (Z.of_nat idx) = Ok t /\
    getitem (ClockGenerator._get_clock_array num2date raw) (Z.of_nat idx)
    = Ok t.
Proof.
  intros Hidx Hraw.
  unfold ClockGenerator.get_clock_time_at_idx,
    ClockGenerator._get_clock_array.
  rewrite !getitem_nat.
  destruct (item_in_bounds raw Hidx) as [x Hx]. rewrite Hx. simpl.
  exists (num2date x). split; [reflexivity|].
  apply item_Ok. rewrite nth_error_map, (filter_prefix _ _ Hraw).
  apply item_Ok in Hx. now rewrite Hx.
Qed.

Lemma get_clock_time_at_idx_decoded_witness :
  exists t,
    ClockGenerator.get_clock_time_at_idx
      (fun x => if (x <? 15)%float then 1%Z else 3%Z)
      [10; 20; nan; 30]%float (Z.of_nat 1) = Ok t /\
    getitem (ClockGenerator._get_clock_array
               (fun x => if (x <? 15)%float then 1%Z else 3%Z)
               [10; 20; nan; 30]%float) (Z.of_nat 1)
    = Ok t.
Proof.
  apply (@get_clock_time_at_idx_decoded
           (fun x => if (x <? 15)%float then 1%Z else 3%Z)
           [10; 20; nan; 30]%float 1).
  - simpl. lia.
  - intros j x Hj Hx.
    assert (j = 0 \/ j = 1) as [-> | ->] by lia;
      inversion Hx; subst; reflexivity.
Defined.

(** Past a [nan] of the raw buffer the two differ: raw index 3 is the
    instant of 30, position 3 of the decoded clock does not exist. *)
Example get_clock_time_at_idx_shifted :
  ClockGenerator.get_clock_time_at_idx
    (fun x => if (x <? 15)%float then 1%Z else 3%Z)
    [10; 20; nan; 30]%float 3 = Ok 3%Z /\
  getitem (ClockGenerator._get_clock_array
             (fun x => if (x <? 15)%float then 1%Z else 3%Z)
             [10; 20; nan; 30]%float) 3
  = Raise IndexError.
Proof.
  split; reflexivity.
Qed.

(** ** A handler made from [get_clock] *)

(** X11. Let a [ClockHandler] hold what [get_clock] returned (the clock
    slice, [start], [end]), and let a line buffer be as long as the
    decoded clock. Then the segment of the line is as long as the stored
    clock; aligned to the handler's own clock the line gives its segment
    [line[start .. end]] back; and aligned to any other clock it gives one
    value for each of its entries, without raising. *)
Theorem handler_from_get_clock (truthy : Z -> bool) (num2date : float -> Z)
  (raw : list float) (start end_ : ClockGenerator.limit) (back : option Z)
  (clk' : list Z) (s e : Z) (line : list float) (fill_gaps : bool) :
  ClockGenerator.get_clock num2date raw start end_ back = Ok (clk', s, e) ->
  length line = length (ClockGenerator._get_clock_array num2date raw) ->
  exists llist,
    get_slice_with_end line s e = Ok llist /\
    length llist = length clk' /\
    get_list_from_line truthy (Handler clk' s e) line None fill_gaps
    = Ok llist /\
    forall clkalign, exists data,
      get_list_from_line truthy (Handler clk' s e) line (Some clkalign)
        fill_gaps = Ok data /\
      length data = length clkalign.
Proof.
  intros Hget Hlen. unfold ClockGenerator.get_clock in Hget.
  set (arr := ClockGenerator._get_clock_array num2date raw) in *.
  destruct (ClockGenerator._get_clock_range arr start end_ back)
    as [[s0 e0]|] eqn:Hr; simpl in Hget; [|discriminate].
  destruct (get_slice_with_end arr s0 e0) as [sl|] eqn:Hg; simpl in Hget;
    [|discriminate].
  inversion Hget; subst sl s0 e0. clear Hget.
  destruct (get_slice_with_end_length line s e) as [llist [Hl Hll]].
  destruct (get_slice_with_end_length arr s e) as [sl [Hs Hsl]].
  rewrite Hg in Hs. inversion Hs; subst sl. clear Hs.
  assert (Heq : length llist = length clk').
  { rewrite Hll, Hsl, Hlen. reflexivity. }
  exists llist. repeat split; try assumption.
  - unfold get_list_from_line. simpl. rewrite Hl. simpl.
    unfold _get_data_from_list.
    apply (@outer_own_clock truthy fill_gaps clk' llist [] [] []);
      [reflexivity|now symmetry].
  - intros clkalign. unfold get_list_from_line. simpl. rewrite Hl. simpl.
    destruct (@outer_safe truthy clk' llist fill_gaps clkalign
                ltac:(lia) 0 []) as [data Hd].
    exists data. split; [exact Hd|].
    now apply outer_length in Hd.
Qed.

Lemma handler_from_get_clock_witness :
  exists llist,
    get_slice_with_end [7; 8; 9; 10]%float 1 2 = Ok llist /\
    length llist = length [3; 3]%Z /\
    get_list_from_line datetime_truth (Handler [3; 3]%Z 1 2)
      [7; 8; 9; 10]%float None true = Ok llist /\
    forall clkalign, exists data,
      get_list_from_line datetime_truth (Handler [3; 3]%Z 1 2)
        [7; 8; 9; 10]%float (Some clkalign) true = Ok data /\
      length data = length clkalign.
Proof.
  apply (@handler_from_get_clock datetime_truth
           (fun x => if (x <? 15)%float then 1%Z
                     else if (x <? 25)%float then 3%Z else 5%Z)
           [10; 20; 21; 30]%float
           (ClockGenerator.DatetimeArg 2) (ClockGenerator.DatetimeArg 4) None
           [3; 3]%Z 1%Z 2%Z [7; 8; 9; 10]%float true).
  - reflexivity.
  - reflexivity.
Defined.

(** ** What the aligned values are *)

Section Values.

Variable truthy : Z -> bool.
Variable self_clk : list Z.
Variable llist : list float.
Variable fill_gaps : bool.

Lemma body_values (c : Z) (i : nat) (st : locals) (fl : flow) :
  v st = nan \/ In (v st) llist ->
  body truthy self_clk llist fill_gaps c i st = Ok fl ->
  match fl with
  | Next st' | Break st' => v st' = nan \/ In (v st') llist
  end.
Proof.
  intros Hv H. unfold body, remember, item_at in H.
  repeat match type of H with
    | context [item ?l ?k] =>
        let E := fresh "E" in
        destruct (item l k) eqn:E; simpl in H; [|discriminate];
        try (apply item_In in E)
    | context [match ?o with Some _ => _ | None => _ end] =>
        destruct o; simpl in H; [|try discriminate]
    | context [if ?b then _ else _] => destruct b; simpl in H
    end;
    inversion H; subst fl; simpl; auto.
Qed.

Lemma scan_values (c : Z) (n : nat) :
  forall i st st',
    v st = nan \/ In (v st) llist ->
    scan truthy self_clk llist fill_gaps c n i st = Ok st' ->
    v st' = nan \/ In (v st') llist.
Proof.
  induction n as [|n IH]; intros i st st' Hv H; simpl in H.
  - inversion H; subst. exact Hv.
  - destruct (body truthy self_clk llist fill_gaps c i st) as [fl|] eqn:Eb;
      simpl in H; [|discriminate].
    apply (@body_values c i st fl Hv) in Eb.
    destruct fl as [st1|st1].
    + eapply IH; eassumption.
    + inversion H; subst. exact Eb.
Qed.

Lemma outer_values (clk : list Z) :
  forall c0 data out,
    Forall (fun y => y = nan \/ In y llist) data ->
    outer truthy self_clk llist fill_gaps clk c0 data = Ok out ->
    Forall (fun y => y = nan \/ In y llist) out.
Proof.
  induction clk as [|c clk IH]; intros c0 data out Hdata H; simpl in H.
  - inversion H; subst. exact Hdata.
  - destruct (align truthy self_clk llist fill_gaps c c0) as [st|] eqn:Ea;
      simpl in H; [|discriminate].
    apply IH in H; [exact H|].
    apply Forall_app. split; [exact Hdata|].
    constructor; [|constructor].
    unfold align in Ea. eapply scan_values; [|exact Ea]. now left.
Qed.

(** With an empty segment nothing is read and every value is missing. *)
Lemma outer_empty_segment (clk : list Z) :
  forall c0 data,
    outer truthy self_clk [] fill_gaps clk c0 data
    = Ok (data ++ repeat nan (length clk)).
Proof.
  induction clk as [|c clk IH]; intros c0 data; simpl.
  - now rewrite app_nil_r.
  - rewrite IH. simpl. now rewrite <- app_assoc.
Qed.

(** The scan raises [IndexError] or nothing. *)
Lemma body_raises (c : Z) (c0 i : nat) (st : locals) (e : exn) :
  scanning c0 i st ->
  body truthy self_clk llist fill_gaps c i st = Raise e -> e = IndexError.
Proof.
  intros [Hc Hp Hi Hs] H. unfold body, remember, item_at, item in H.
  repeat match type of H with
    | context [nth_error ?l ?k] =>
        destruct (nth_error l k); simpl in H;
        [|inversion H; reflexivity]
    | context [if ?b then _ else _] => destruct b eqn:?; simpl in H
    end;
    try discriminate.
  all: destruct (sc_prev st) as [p|] eqn:Ep; simpl in *; try discriminate.
  all: destruct (idx_prev st) as [k|] eqn:Ek;
    [|exfalso; apply Hs; congruence].
  all: simpl in H; destruct (nth_error llist k); simpl in H;
    [discriminate|inversion H; reflexivity].
Qed.

Lemma scan_raises (c : Z) (c0 n : nat) :
  forall i st e,
    scanning c0 i st ->
    scan truthy self_clk llist fill_gaps c n i st = Raise e ->
    e = IndexError.
Proof.
  induction n as [|n IH]; intros i st e Hinv H; simpl in H; [discriminate|].
  destruct (body truthy self_clk llist fill_gaps c i st) as [fl|e'] eqn:Eb;
    simpl in H.
  - pose proof (@body_inv truthy self_clk llist fill_gaps c c0 i st fl
                  Hinv Eb) as Hfl.
    destruct fl as [st1|st1]; [|discriminate].
    eapply IH; eassumption.
  - inversion H; subst. eapply body_raises; eassumption.
Qed.

Lemma outer_raises (clk : list Z) :
  forall c0 data e,
    outer truthy self_clk llist fill_gaps clk c0 data = Raise e ->
    e = IndexError.
Proof.
  induction clk as [|c clk IH]; intros c0 data e H; simpl in H;
    [discriminate|].
  destruct (align truthy self_clk llist fill_gaps c c0) as [st|e'] eqn:Ea;
    simpl in H.
  - eapply IH; eassumption.
  - inversion H; subst. unfold align in Ea.
    eapply scan_raises; [apply scanning_enter|exact Ea].
Qed.

End Values.

Lemma get_slice_with_end_incl (A : Type) (data : list A) (s e : Z)
  (l : list A) :
  get_slice_with_end data s e = Ok l -> incl l data.
Proof.
  unfold get_slice_with_end. intros H.
  destruct (e >=? s)%Z; [|inversion H; subst; intros y []].
  unfold getitem in H.
  destruct (_ <? 0)%Z; simpl in H; [inversion H; subst; intros y []|].
  destruct (item data _) as [x|] eqn:Ex; simpl in H.
  - inversion H; subst. intros y Hy. apply in_app_or in Hy.
    destruct Hy as [Hy|[<-|[]]].
    + unfold slice in Hy.
      rewrite <- (firstn_skipn (Z.to_nat (adjust (Z.of_nat (length data)) s))
                    data).
      apply in_or_app. right.
      match type of Hy with
      | In y (firstn ?n ?l) => rewrite <- (firstn_skipn n l)
      end.
      apply in_or_app. left. exact Hy.
    + eapply item_In; eassumption.
  - destruct e0; inversion H; subst; intros y [].
Qed.

(** X12. Every value [get_list_from_line] returns is the missing marker
    or a value of the line buffer, taken from the handler's segment: the
    alignment copies values and computes none. *)
Theorem aligned_values_from_line (truthy : Z -> bool) (self : handler)
  (line : list float) (clkalign : option (list Z)) (fill_gaps : bool)
  (data : list float) :
  get_list_from_line truthy self line clkalign fill_gaps = Ok data ->
  exists llist,
    get_slice_with_end line (start self) (end_ self) = Ok llist /\
    Forall (fun y => y = nan \/ (In y llist /\ In y line)) data.
Proof.
  unfold get_list_from_line. intros H.
  destruct (get_slice_with_end line (start self) (end_ self))
    as [llist|] eqn:Hl; simpl in H; [|discriminate].
  exists llist. split; [reflexivity|].
  apply outer_values in H; [|constructor].
  pose proof (get_slice_with_end_incl _ _ _ Hl) as Hincl.
  rewrite Forall_forall in *. intros y Hy.
  destruct (H y Hy) as [Hn|Hin]; [now left|right].
  split; [exact Hin|apply Hincl; exact Hin].
Qed.

Lemma aligned_values_from_line_witness :
  exists llist,
    get_slice_with_end scenario_line 0 4 = Ok llist /\
    Forall (fun y => y = nan \/ (In y llist /\ In y scenario_line))
      [10; 20; 30; nan; 50; 60]%float.
Proof.
  apply (@aligned_values_from_line int_truth scenario_handler scenario_line
           (Some scenario_clock) false [10; 20; 30; nan; 50; 60]%float).
  vm_compute. reflexivity.
Defined.

(** X13. When the handler's range selects nothing of the line
    ([end < start], or [end] outside the line), [get_list_from_line]
    returns the missing marker for every entry of the clock it aligns to,
    and reads nothing of the stored clock. *)
Theorem empty_segment_all_missing (truthy : Z -> bool) (self : handler)
  (line : list float) (clkalign : option (list Z)) (fill_gaps : bool) :
  get_slice_with_end line (start self) (end_ self) = Ok [] ->
  get_list_from_line truthy self line clkalign fill_gaps
  = Ok (repeat nan (length (match clkalign with
                            | None => clk self
                            | Some c => c
                            end))).
Proof.
  intros H. unfold get_list_from_line. rewrite H. simpl.
  unfold _get_data_from_list. now rewrite outer_empty_segment.
Qed.

Lemma empty_segment_all_missing_witness :
  get_list_from_line int_truth (Handler [] 0 (-1)) [10; 20]%float
    (Some [1; 2; 3]%Z) false
  = Ok (repeat nan (length [1; 2; 3]%Z)).
Proof.
  apply (@empty_segment_all_missing int_truth (Handler [] 0 (-1))
           [10; 20]%float (Some [1; 2; 3]%Z) false).
  reflexivity.
Defined.

(** X14. The only exception [_get_data_from_list] raises is
    [IndexError], and only when the stored clock is shorter than the
    segment: [idx_prev] is never used while it is [None]. *)
Theorem resample_raises_only_IndexError (truthy : Z -> bool)
  (self_clk : list Z) (llist : list float) (fill_gaps : bool)
  (clk : list Z) (e : exn) :
  _get_data_from_list truthy self_clk llist fill_gaps clk = Raise e ->
  e = IndexError /\ length self_clk < length llist.
Proof.
  intros H. split.
  - unfold _get_data_from_list in H. eapply outer_raises; exact H.
  - destruct (le_lt_dec (length llist) (length self_clk)) as [Hle|Hlt];
      [|exact Hlt].
    destruct (@outer_safe truthy self_clk llist fill_gaps clk Hle 0 [])
      as [data Hd].
    unfold _get_data_from_list in H. congruence.
Qed.

Lemma resample_raises_only_IndexError_witness :
  IndexError = IndexError /\ length [1%Z] < length [5; 6]%float.
Proof.
  apply (@resample_raises_only_IndexError int_truth [1%Z] [5; 6]%float true
           [9%Z] IndexError).
  reflexivity.
Defined.

(** ** The branches of the scan *)

(** [sc > c]: the overshoot branch, as a function of the variables. *)
Lemma body_later (truthy : Z -> bool) (self_clk : list Z)
  (llist : list float) (fill_gaps : bool) (c : Z) (i : nat) (st : locals)
  (sc : Z) :
  item self_clk i = Ok sc -> (c < sc)%Z ->
  body truthy self_clk llist fill_gaps c i st
  = if fill_gaps
       || match sc_prev st with
          | Some p => truthy p && (p <? c)%Z
          | None => false
          end
    then
      if truth truthy (sc_prev st) then
        ix <- item_at llist (idx_prev st) ;;
        Ok (Break (set_c_idx (S (fst ix)) (set_v (snd ix) st)))
      else
        x <- item llist i ;;
        Ok (Break (set_c_idx i (set_v x st)))
    else Ok (Break st).
Proof.
  intros Hsc Hlt. unfold body. rewrite Hsc. simpl.
  destruct (Z.ltb_spec sc c); [lia|].
  destruct (Z.eqb_spec sc c); [lia|].
  rewrite Z.gtb_ltb. destruct (Z.ltb_spec c sc); [reflexivity|lia].
Qed.

(** X15. Exact match with a value: when every position from the cursor
    [c0] to [j] has an instant before [c], and position [j] has the
    instant [c] and a non-missing value [y], the value for [c] is [y] and
    the cursor moves to [j + 1], whatever was passed on the way and
    whatever [fill_gaps] is. *)
Theorem exact_match_takes_value (truthy : Z -> bool) (self_clk : list Z)
  (llist : list float) (fill_gaps : bool) (c : Z) (c0 j : nat) (y : float) :
  c0 <= j ->
  (forall p, c0 <= p < j -> earlier self_clk c p) ->
  item self_clk j = Ok c -> item llist j = Ok y -> self_eq y = true ->
  exists st,
    align truthy self_clk llist fill_gaps c c0 = Ok st /\
    v st = y /\ c_idx st = S j.
Proof.
  intros Hj Hearlier Hc Hy Hyv.
  pose proof (item_Ok_lt _ _ Hy) as Hjl.
  destruct (@scan_earlier_stretch truthy self_clk llist fill_gaps c
              (j - c0) c0 (enter c0)) as [st1 [Hc1 Hst1]].
  { intros p Hp. apply Hearlier. lia. }
  { lia. }
  unfold align.
  replace (length llist - c0) with ((j - c0) + S (length llist - S j)) by lia.
  rewrite Hst1. replace (c0 + (j - c0)) with j by lia.
  simpl.
  rewrite (@body_match truthy self_clk llist fill_gaps c j st1 y Hc Hy).
  rewrite Hyv, orb_true_r.
  eexists. split; [reflexivity|]. split; reflexivity.
Qed.

Lemma exact_match_takes_value_witness :
  exists st,
    align int_truth [1; 2; 3]%Z [10; nan; 30]%float false 3 0 = Ok st /\
    v st = 30%float /\ c_idx st = 3.
Proof.
  apply (@exact_match_takes_value int_truth [1; 2; 3]%Z [10; nan; 30]%float
           false 3%Z 0 2 30%float).
  - lia.
  - intros p Hp. assert (p = 0 \/ p = 1) as [-> | ->] by lia;
      eexists; split; vm_compute; reflexivity.
  - reflexivity.
  - reflexivity.
  - reflexivity.
Defined.

(** X16. Forward fill: when the scan for [c], started at the cursor [c0],
    passes the non-missing value [x] at [k] (its instant true as a
    condition), only missing values after it, and then meets at [j] an
    instant after [c], the value for [c] is [x] whatever [fill_gaps] is,
    and the cursor moves to [k + 1], just after the sample carried
    forward. *)
Theorem overshoot_carries_forward (truthy : Z -> bool) (self_clk : list Z)
  (llist : list float) (fill_gaps : bool) (c : Z) (c0 k j : nat)
  (s sc : Z) (x : float) :
  c0 <= k -> k < j -> j < length llist ->
  (forall p, c0 <= p < j -> earlier self_clk c p) ->
  item self_clk k = Ok s -> truthy s = true ->
  item llist k = Ok x -> self_eq x = true ->
  (forall p, k < p < j -> missing llist p) ->
  item self_clk j = Ok sc -> (c < sc)%Z ->
  exists st,
    align truthy self_clk llist fill_gaps c c0 = Ok st /\
    v st = x /\ c_idx st = S k.
Proof.
  intros Hk Hkj Hjl Hearlier Hs Hts Hx Hxv Hmiss Hsc Hlt.
  destruct (@scan_earlier_stretch truthy self_clk llist fill_gaps c
              (k - c0) c0 (enter c0)) as [st1 [Hc1 Hst1]].
  { intros p Hp. apply Hearlier. lia. }
  { lia. }
  destruct (Hearlier k) as [s' [Hs' Hslt]]; [lia|].
  assert (s' = s) as -> by congruence.
  unfold align.
  replace (length llist - c0)
    with ((k - c0) + S ((j - S k) + S (length llist - S j))) by lia.
  rewrite Hst1. replace (c0 + (k - c0)) with k by lia.
  simpl.
  rewrite (@body_earlier truthy self_clk llist fill_gaps c k st1 s x
             Hs Hslt Hx), Hxv.
  simpl. rewrite scan_missing_stretch.
  - replace (S k + (j - S k)) with j by lia.
    simpl. rewrite (@body_later truthy self_clk llist fill_gaps c j _ sc
                      Hsc Hlt).
    simpl. rewrite Hts.
    apply Z.ltb_lt in Hslt. rewrite Hslt, orb_true_r. simpl.
    rewrite Hx. simpl.
    eexists. split; [reflexivity|]. split; reflexivity.
  - intros p Hp. split; [apply Hearlier|apply Hmiss]; lia.
Qed.

Lemma overshoot_carries_forward_witness :
  exists st,
    align int_truth [1; 2; 5]%Z [10; nan; 50]%float false 3 0 = Ok st /\
    v st = 10%float /\ c_idx st = 1.
Proof.
  apply (@overshoot_carries_forward int_truth [1; 2; 5]%Z
           [10; nan; 50]%float false 3%Z 0 0 2 1%Z 5%Z 10%float).
  - lia.
  - lia.
  - simpl. lia.
  - intros p Hp. assert (p = 0 \/ p = 1) as [-> | ->] by lia;
      eexists; split; vm_compute; reflexivity.
  - reflexivity.
  - reflexivity.
  - reflexivity.
  - reflexivity.
  - intros p Hp. assert (p = 1) as -> by lia.
    eexists; split; vm_compute; reflexivity.
  - reflexivity.
  - lia.
Defined.

(** X17. Gap fill: with [fill_gaps=True], when the scan for [c], started
    at the cursor [c0], passes only missing values and then meets at [j]
    an instant after [c], the value for [c] is the value at [j] (missing
    or not), and the cursor moves to [j], not past it. *)
Theorem overshoot_fills_gap (truthy : Z -> bool) (self_clk : list Z)
  (llist : list float) (c : Z) (c0 j : nat) (sc : Z) (y : float) :
  c0 <= j ->
  (forall p, c0 <= p < j -> earlier self_clk c p /\ missing llist p) ->
  item self_clk j = Ok sc -> (c < sc)%Z -> item llist j = Ok y ->
  exists st,
    align truthy self_clk llist true c c0 = Ok st /\
    v st = y /\ c_idx st = j.
Proof.
  intros Hj Hstretch Hsc Hlt Hy.
  pose proof (item_Ok_lt _ _ Hy) as Hjl.
  unfold align.
  replace (length llist - c0) with ((j - c0) + S (length llist - S j)) by lia.
  rewrite scan_missing_stretch.
  - replace (c0 + (j - c0)) with j by lia.
    simpl. rewrite (@body_later truthy self_clk llist true c j _ sc Hsc Hlt).
    simpl. rewrite Hy. simpl.
    eexists. split; [reflexivity|]. split; reflexivity.
  - intros p Hp. apply Hstretch. lia.
Qed.

Lemma overshoot_fills_gap_witness :
  exists st,
    align int_truth [1; 5]%Z [nan; 50]%float true 3 0 = Ok st /\
    v st = 50%float /\ c_idx st = 1.
Proof.
  apply (@overshoot_fills_gap int_truth [1; 5]%Z [nan; 50]%float 3%Z 0 1
           5%Z 50%float).
  - lia.
  - intros p Hp. assert (p = 0) as -> by lia.
    split; eexists; split; vm_compute; reflexivity.
  - reflexivity.
  - lia.
  - reflexivity.
Defined.

(** X18. Running out of segment: when every position from the cursor
    [c0] to the end of the segment has an instant before [c], the scan
    ends without a [break] and the cursor stays [c0]; the value for [c]
    is the last non-missing value from [c0] on, the missing marker when
    there is none. *)
Theorem scan_runs_out (truthy : Z -> bool) (self_clk : list Z)
  (llist : list float) (fill_gaps : bool) (c : Z) (c0 : nat) :
  (forall p, c0 <= p < length llist -> earlier self_clk c p) ->
  exists st,
    align truthy self_clk llist fill_gaps c c0 = Ok st /\
    c_idx st = c0 /\
    ((forall p, c0 <= p < length llist -> missing llist p) -> v st = nan) /\
    (forall k x,
       c0 <= k < length llist -> item llist k = Ok x -> self_eq x = true ->
       (forall p, k < p < length llist -> missing llist p) ->
       v st = x).
Proof.
  intros Hearlier.
  destruct (le_lt_dec c0 (length llist)) as [Hle|Hgt].
  - destruct (@scan_earlier_stretch truthy self_clk llist fill_gaps c
                (length llist - c0) c0 (enter c0)) as [st [Hc Hst]].
    { intros p Hp. apply Hearlier. lia. }
    { lia. }
    specialize (Hst 0). rewrite Nat.add_0_r in Hst. simpl in Hst.
    exists st. unfold align. repeat split.
    + exact Hst.
    + exact Hc.
    + intros Hmiss.
      pose proof (@scan_missing_stretch truthy self_clk llist fill_gaps c
                    (length llist - c0) c0 (enter c0) 0) as H.
      rewrite Nat.add_0_r in H. simpl in H. rewrite Hst in H.
      assert (Heq : Ok st = Ok (enter c0)).
      { apply H. intros p Hp. split; [apply Hearlier|apply Hmiss]; lia. }
      inversion Heq. reflexivity.
    + intros k x Hk Hx Hxv Hmiss.
      destruct (@scan_earlier_stretch truthy self_clk llist fill_gaps c
                  (k - c0) c0 (enter c0)) as [st1 [Hc1 Hst1]].
      { intros p Hp. apply Hearlier. lia. }
      { lia. }
      destruct (Hearlier k) as [s [Hs Hslt]]; [lia|].
      replace (length llist - c0)
        with ((k - c0) + S ((length llist - S k) + 0)) in Hst by lia.
      rewrite Hst1 in Hst. replace (c0 + (k - c0)) with k in Hst by lia.
      simpl in Hst.
      rewrite (@body_earlier truthy self_clk llist fill_gaps c k st1 s x
                 Hs Hslt Hx), Hxv in Hst.
      simpl in Hst. rewrite scan_missing_stretch in Hst.
      * simpl in Hst. inversion Hst. reflexivity.
      * intros p Hp. split; [apply Hearlier|apply Hmiss]; lia.
  - exists (enter c0). unfold align.
    replace (length llist - c0) with 0 by lia. simpl.
    repeat split. intros k x Hk. lia.
Qed.

Lemma scan_runs_out_witness :
  exists st,
    align int_truth [1; 2; 3]%Z [10; 20; nan]%float false 9 1 = Ok st /\
    c_idx st = 1 /\ v st = 20%float.
Proof.
  destruct (@scan_runs_out int_truth [1; 2; 3]%Z [10; 20; nan]%float false
              9%Z 1) as [st [H1 [H2 [_ H3]]]].
  - intros p Hp. simpl in Hp.
    assert (p = 1 \/ p = 2) as [-> | ->] by lia;
      eexists; split; vm_compute; reflexivity.
  - exists st. repeat split; try assumption.
    apply (H3 1 20%float).
    + simpl. lia.
    + reflexivity.
    + reflexivity.
    + intros p Hp. simpl in Hp. assert (p = 2) as -> by lia.
      eexists; split; vm_compute; reflexivity.
Defined.

(** ** The stored clock beyond the segment *)

Lemma item_app_l (A : Type) (l l' : list A) (i : nat) :
  i < length l -> item (l ++ l') i = item l i.
Proof.
  intros H. unfold item. now rewrite nth_error_app1.
Qed.

Lemma scan_app (truthy : Z -> bool) (self_clk extra : list Z)
  (llist : list float) (fill_gaps : bool) (c : Z) (n : nat) :
  forall i st,
    i + n <= length self_clk ->
    scan truthy (self_clk ++ extra) llist fill_gaps c n i st
    = scan truthy self_clk llist fill_gaps c n i st.
Proof.
  induction n as [|n IH]; intros i st H; simpl; [reflexivity|].
  assert (Hb : body truthy (self_clk ++ extra) llist fill_gaps c i st
               = body truthy self_clk llist fill_gaps c i st).
  { unfold body. rewrite item_app_l by lia. reflexivity. }
  rewrite Hb.
  destruct (body truthy self_clk llist fill_gaps c i st) as [[st'|st']|];
    simpl; try reflexivity.
  apply IH. lia.
Qed.

Lemma outer_app (truthy : Z -> bool) (self_clk extra : list Z)
  (llist : list float) (fill_gaps : bool) (clk : list Z) :
  length llist <= length self_clk ->
  forall c0 data,
    outer truthy (self_clk ++ extra) llist fill_gaps clk c0 data
    = outer truthy self_clk llist fill_gaps clk c0 data.
Proof.
  intros Hlen.
  induction clk as [|c clk IH]; intros c0 data; simpl; [reflexivity|].
  assert (Ha : align truthy (self_clk ++ extra) llist fill_gaps c c0
               = align truthy self_clk llist fill_gaps c c0).
  { unfold align. destruct (le_lt_dec c0 (length llist)).
    - apply scan_app. lia.
    - replace (length llist - c0) with 0 by lia. reflexivity. }
  rewrite Ha.
  destruct (align truthy self_clk llist fill_gaps c c0); simpl;
    [apply IH|reflexivity].
Qed.

(** X19. Entries of the stored clock beyond the length of the segment
    are never read: when the stored clock is at least as long as the
    segment, more entries after it change nothing of the result. *)
Theorem clock_beyond_segment_unread (truthy : Z -> bool)
  (self_clk extra : list Z) (llist : list float) (fill_gaps : bool)
  (clk : list Z) :
  length llist <= length self_clk ->
  _get_data_from_list truthy (self_clk ++ extra) llist fill_gaps clk
  = _get_data_from_list truthy self_clk llist fill_gaps clk.
Proof.
  intros Hlen. unfold _get_data_from_list. now apply outer_app.
Qed.

Lemma clock_beyond_segment_unread_witness :
  _get_data_from_list int_truth ([1; 2] ++ [0; 7])%Z [10; 20]%float true
    [1; 2; 3]%Z
  = _get_data_from_list int_truth [1; 2]%Z [10; 20]%float true [1; 2; 3]%Z.
Proof.
  apply (@clock_beyond_segment_unread int_truth [1; 2]%Z [0; 7]%Z
           [10; 20]%float true [1; 2; 3]%Z).
  simpl. lia.
Defined.

(** ** A candidate reaches the output *)

(** X20. When every entry of the stored clock is true as a condition (as
    [datetime] entries are), a non-missing value passed before [c] in the
    scan for [c] is never lost: whatever comes after it in the segment,
    the value for [c] is not the missing marker. *)
Theorem candidate_reaches_output (truthy : Z -> bool) (self_clk : list Z)
  (llist : list float) (fill_gaps : bool) (c : Z) (c0 k : nat) (x : float)
  (st : locals) :
  (forall s, In s self_clk -> truthy s = true) ->
  c0 <= k ->
  (forall p, c0 <= p <= k -> earlier self_clk c p) ->
  item llist k = Ok x -> self_eq x = true ->
  align truthy self_clk llist fill_gaps c c0 = Ok st ->
  self_eq (v st) = true.
Proof.
  intros Htrue Hk Hearlier Hx Hxv Halign.
  pose proof (item_Ok_lt _ _ Hx) as Hkl.
  destruct (@scan_earlier_stretch truthy self_clk llist fill_gaps c
              (k - c0) c0 (enter c0)) as [st1 [Hc1 Hst1]].
  { intros p Hp. apply Hearlier. lia. }
  { lia. }
  destruct (Hearlier k) as [s [Hs Hslt]]; [lia|].
  unfold align in Halign.
  replace (length llist - c0)
    with ((k - c0) + S (length llist - S k)) in Halign by lia.
  rewrite Hst1 in Halign. replace (c0 + (k - c0)) with k in Halign by lia.
  simpl in Halign.
  rewrite (@body_earlier truthy self_clk llist fill_gaps c k st1 s x
             Hs Hslt Hx), Hxv in Halign.
  simpl in Halign.
  eapply (@candidate_never_lost truthy self_clk llist fill_gaps Htrue);
    [| |exact Halign].
  - unfold held. simpl. repeat split.
    + eapply item_In; eassumption.
    + exact Hxv.
    + eauto.
  - exact Hxv.
Qed.

Lemma candidate_reaches_output_witness :
  self_eq (v (Locals 10 (Some 1%Z) (Some 0) 1)) = true.
Proof.
  apply (@candidate_reaches_output datetime_truth [1; 5]%Z [10; nan]%float
           true 3%Z 0 0 10%float (Locals 10 (Some 1%Z) (Some 0) 1)).
  - reflexivity.
  - lia.
  - intros p Hp. assert (p = 0) as -> by lia.
    eexists; split; vm_compute; reflexivity.
  - reflexivity.
  - reflexivity.
  - vm_compute. reflexivity.
Defined.

(** ** [get_df_from_series] *)

Lemma append_inj (p a b : string) :
  String.append p a = String.append p b -> a = b.
Proof.
  induction p as [|ch p IH]; simpl; intros H; [exact H|].
  inversion H. now apply IH.
Qed.

Lemma setitem_names (df : DataFrame) (name : string) (values : list float) :
  forall n, In n (map fst (setitem df name values)) <->
            In n (map fst df) \/ n = name.
Proof.
  induction df as [|[m col] df IH]; intros n; simpl.
  - intuition.
  - destruct (String.eqb_spec m name) as [->|Hne]; simpl.
    + intuition.
    + rewrite IH. intuition.
Qed.

Lemma setitem_fresh (df : DataFrame) (name : string) (values : list float) :
  ~ In name (map fst df) -> setitem df name values = df ++ [(name, values)].
Proof.
  induction df as [|[m col] df IH]; simpl; intros H; [reflexivity|].
  destruct (String.eqb_spec m name) as [->|Hne]; [tauto|].
  f_equal. apply IH. tauto.
Qed.

Lemma setitem_Forall (P : list float -> Prop) (df : DataFrame)
  (name : string) (values : list float) :
  Forall (fun col => P (snd col)) df -> P values ->
  Forall (fun col => P (snd col)) (setitem df name values).
Proof.
  induction 1 as [|[m col] df Hm Hdf IH]; simpl; intros Hv.
  - repeat constructor. exact Hv.
  - destruct (String.eqb m name); constructor; auto.
Qed.

Section Table.

Variable truthy : Z -> bool.
Variable self : handler.
Variable clkalign : option (list Z).
Variable name_prefix : string.
Variable skip : list string.
Variable fill_gaps : bool.

Lemma df_loop_names (series : list (string * list float)) :
  forall df out,
    df_loop truthy self series clkalign name_prefix skip fill_gaps df
    = Ok out ->
    forall n, In n (map fst out) <->
              In n (map fst df) \/
              exists a, In a (map fst series) /\ skipped skip a = false /\
                        n = String.append name_prefix a.
Proof.
  induction series as [|[a line] series IH]; intros df out H n; simpl in H.
  - inversion H; subst. simpl. split; [auto|].
    intros [Hn|[a [[] _]]]. exact Hn.
  - destruct (skipped skip a) eqn:Ha.
    + rewrite (IH _ _ H n). simpl. split.
      * intros [Hn|[b [Hb Hb']]]; [now left|right].
        exists b. tauto.
      * intros [Hn|[b [[<-|Hb] [Hs Hb']]]]; [now left|congruence|right].
        exists b. tauto.
    + destruct (get_list_from_line truthy self line clkalign fill_gaps)
        as [values|]; simpl in H; [|discriminate].
      rewrite (IH _ _ H n), setitem_names. simpl. split.
      * intros [[Hn|Hn]|[b [Hb Hb']]]; [now left|right|right].
        -- exists a. tauto.
        -- exists b. tauto.
      * intros [Hn|[b [[<-|Hb] [Hs Hb']]]]; [tauto|tauto|right].
        exists b. tauto.
Qed.

Lemma df_loop_order (series : list (string * list float)) :
  forall df out,
    NoDup (map fst series) ->
    (forall a, In a (map fst series) ->
               ~ In (String.append name_prefix a) (map fst df)) ->
    df_loop truthy self series clkalign name_prefix skip fill_gaps df
    = Ok out ->
    map fst out
    = map fst df ++
      map (String.append name_prefix)
        (filter (fun a => negb (skipped skip a)) (map fst series)).
Proof.
  induction series as [|[a line] series IH]; intros df out Hnd Hfresh H;
    simpl in H.
  - inversion H; subst. simpl. now rewrite app_nil_r.
  - simpl in Hnd. inversion Hnd as [|? ? Hna Hnd']; subst.
    simpl. destruct (skipped skip a) eqn:Ha; simpl.
    + apply IH; try assumption.
      intros b Hb. apply Hfresh. simpl. now right.
    + destruct (get_list_from_line truthy self line clkalign fill_gaps)
        as [values|]; simpl in H; [|discriminate].
      rewrite setitem_fresh in H by (apply Hfresh; simpl; now left).
      assert (Hf : forall b, In b (map fst series) ->
                 ~ In (String.append name_prefix b)
                     (map fst (df ++ [(String.append name_prefix a, values)]))).
      { intros b Hb. rewrite map_app. simpl. intros Hin.
        apply in_app_or in Hin. destruct Hin as [Hin|[Heq|[]]].
        - apply (Hfresh b); [simpl; now right|exact Hin].
        - apply append_inj in Heq. subst. contradiction. }
      rewrite (IH _ _ Hnd' Hf H).
      rewrite map_app. simpl. now rewrite <- app_assoc.
Qed.

Lemma df_loop_columns (n : nat) (series : list (string * list float)) :
  (forall line values,
     In line (map snd series) ->
     get_list_from_line truthy self line clkalign fill_gaps = Ok values ->
     length values = n) ->
  forall df out,
    Forall (fun col => length (snd col) = n) df ->
    df_loop truthy self series clkalign name_prefix skip fill_gaps df
    = Ok out ->
    Forall (fun col => length (snd col) = n) out.
Proof.
  induction series as [|[a line] series IH]; intros Hlen df out Hdf H;
    simpl in H.
  - inversion H; subst. exact Hdf.
  - assert (Hlen' : forall line values,
               In line (map snd series) ->
               get_list_from_line truthy self line clkalign fill_gaps
               = Ok values -> length values = n).
    { intros l vs Hl. apply Hlen. simpl. now right. }
    destruct (skipped skip a).
    + eapply IH; eassumption.
    + destruct (get_list_from_line truthy self line clkalign fill_gaps)
        as [values|] eqn:Hv; simpl in H; [|discriminate].
      eapply (IH Hlen'); [|exact H].
      apply setitem_Forall with (P := fun vs => length vs = n);
        [exact Hdf|].
      apply (Hlen line values); [simpl; now left|exact Hv].
Qed.

End Table.

Lemma skipped_In (skip : list string) (a : string) :
  skipped skip a = true <-> In a skip.
Proof.
  unfold skipped. rewrite existsb_exists. split.
  - intros [b [Hb Heq]]. apply String.eqb_eq in Heq. now subst.
  - intros H. exists a. split; [exact H|apply String.eqb_refl].
Qed.

Lemma skipped_not_In (skip : list string) (a : string) :
  skipped skip a = false <-> ~ In a skip.
Proof.
  rewrite <- skipped_In. destruct (skipped skip a); split; congruence.
Qed.

Lemma get_list_from_line_length (truthy : Z -> bool) (self : handler)
  (line : list float) (clkalign : option (list Z)) (fill_gaps : bool)
  (values : list float) :
  get_list_from_line truthy self line clkalign fill_gaps = Ok values ->
  length values = length (match clkalign with
                          | None => clk self
                          | Some c => c
                          end).
Proof.
  unfold get_list_from_line. intros H.
  destruct (get_slice_with_end line (start self) (end_ self)); simpl in H;
    [|discriminate].
  now apply outer_length in H.
Qed.

(** X21. The columns of the table [get_df_from_series] returns are named
    [name_prefix + linealias] for the line aliases that are not in [skip],
    and no others: no column is named after a skipped alias; when the
    aliases are distinct the columns stand in the order of the aliases. *)
Theorem table_columns (truthy : Z -> bool) (self : handler)
  (series : list (string * list float)) (clkalign : option (list Z))
  (name_prefix : string) (skip : list string) (fill_gaps : bool)
  (df : DataFrame) :
  get_df_from_series truthy self series clkalign name_prefix skip fill_gaps
  = Ok df ->
  (forall n, In n (map fst df) <->
             exists a, In a (map fst series) /\ ~ In a skip /\
                       n = String.append name_prefix a) /\
  (forall a, In a skip ->
             ~ In (String.append name_prefix a) (map fst df)) /\
  (NoDup (map fst series) ->
   map fst df
   = map (String.append name_prefix)
       (filter (fun a => negb (skipped skip a)) (map fst series))).
Proof.
  intros H. unfold get_df_from_series in H.
  assert (Hnames : forall n, In n (map fst df) <->
            exists a, In a (map fst series) /\ ~ In a skip /\
                      n = String.append name_prefix a).
  { intros n. rewrite (df_loop_names _ _ _ _ _ _ _ _ H n). simpl. split.
    - intros [[]|[a [Ha [Hs Hn]]]]. exists a.
      rewrite <- skipped_not_In. tauto.
    - intros [a [Ha [Hs Hn]]]. right. exists a.
      rewrite skipped_not_In. tauto. }
  split; [exact Hnames|]. split.
  - intros a Ha Hin. apply Hnames in Hin.
    destruct Hin as [b [_ [Hb Heq]]]. apply append_inj in Heq.
    subst. contradiction.
  - intros Hnd.
    apply (df_loop_order _ _ _ _ _ _ series [] Hnd) in H; [exact H|].
    intros a _ [].
Qed.

Lemma table_columns_witness :
  (forall n, In n (map fst [("d_open", [1; 2]); ("d_low", [5; 6])]%string
                     %float) <->
             exists a, In a (map fst [("open", [1; 2]); ("close", [3; 4]);
                                      ("low", [5; 6])]%string%float) /\
                       ~ In a ["close"%string] /\
                       n = String.append "d_" a) /\
  (forall a, In a ["close"%string] ->
             ~ In (String.append "d_" a)
                 (map fst [("d_open", [1; 2]); ("d_low", [5; 6])]%string
                    %float)) /\
  (NoDup (map fst [("open", [1; 2]); ("close", [3; 4]); ("low", [5; 6])]
            %string%float) ->
   map fst [("d_open", [1; 2]); ("d_low", [5; 6])]%string%float
   = map (String.append "d_")
       (filter (fun a => negb (skipped ["close"%string] a))
          (map fst [("open", [1; 2]); ("close", [3; 4]); ("low", [5; 6])]
             %string%float))).
Proof.
  apply (@table_columns int_truth (Handler [1; 2]%Z 0 1)
           [("open", [1; 2]); ("close", [3; 4]); ("low", [5; 6])]%string%float
           None "d_"%string ["close"%string] false).
  vm_compute. reflexivity.
Defined.

Lemma df_loop_safe (truthy : Z -> bool) (self : handler)
  (clkalign : option (list Z)) (name_prefix : string) (skip : list string)
  (fill_gaps : bool) (series : list (string * list float)) :
  (forall a line llist,
     In (a, line) series -> ~ In a skip ->
     get_slice_with_end line (start self) (end_ self) = Ok llist ->
     length llist <= length (clk self)) ->
  forall df, exists out,
    df_loop truthy self series clkalign name_prefix skip fill_gaps df
    = Ok out.
Proof.
  induction series as [|[a line] series IH]; intros Hsafe df; simpl.
  - eauto.
  - assert (Hsafe' : forall b l ll,
               In (b, l) series -> ~ In b skip ->
               get_slice_with_end l (start self) (end_ self) = Ok ll ->
               length ll <= length (clk self)).
    { intros b l ll Hb. apply Hsafe. simpl. now right. }
    destruct (skipped skip a) eqn:Ha; [apply (IH Hsafe')|].
    unfold get_list_from_line.
    destruct (get_slice_with_end_length line (start self) (end_ self))
      as [llist [Hl _]].
    rewrite Hl. simpl.
    assert (Hlen : length llist <= length (clk self)).
    { apply (Hsafe a line llist); [simpl; now left| |exact Hl].
      now apply skipped_not_In. }
    destruct (@outer_safe truthy (clk self) llist fill_gaps
                (match clkalign with None => clk self | Some c => c end)
                Hlen 0 []) as [data Hd].
    unfold _get_data_from_list. rewrite Hd. simpl. apply (IH Hsafe').
Qed.

(** X22. When the segment of every line that is not skipped is no longer
    than the stored clock, [get_df_from_series] returns a table, and each
    of its columns has one value for each entry of the clock aligned to:
    the columns all have the same length. *)
Theorem table_rectangular (truthy : Z -> bool) (self : handler)
  (series : list (string * list float)) (clkalign : option (list Z))
  (name_prefix : string) (skip : list string) (fill_gaps : bool) :
  (forall a line llist,
     In (a, line) series -> ~ In a skip ->
     get_slice_with_end line (start self) (end_ self) = Ok llist ->
     length llist <= length (clk self)) ->
  exists df,
    get_df_from_series truthy self series clkalign name_prefix skip fill_gaps
    = Ok df /\
    Forall (fun col => length (snd col)
                       = length (match clkalign with
                                 | None => clk self
                                 | Some c => c
                                 end)) df.
Proof.
  intros Hsafe. unfold get_df_from_series.
  destruct (@df_loop_safe truthy self clkalign name_prefix skip fill_gaps
              series Hsafe []) as [df Hdf].
  exists df. split; [exact Hdf|].
  eapply df_loop_columns; [|constructor|exact Hdf].
  intros line values _ Hv.
  eapply get_list_from_line_length; exact Hv.
Qed.

Lemma table_rectangular_witness :
  exists df,
    get_df_from_series int_truth (Handler [1; 2]%Z 0 1)
      [("open", [1; 2]); ("close", [3; 4; 5])]%string%float
      (Some [1; 2; 3]%Z) "d_"%string ["close"%string] false
    = Ok df /\
    Forall (fun col => length (snd col) = length [1; 2; 3]%Z) df.
Proof.
  apply (@table_rectangular int_truth (Handler [1; 2]%Z 0 1)
           [("open", [1; 2]); ("close", [3; 4; 5])]%string%float
           (Some [1; 2; 3]%Z) "d_"%string ["close"%string] false).
  intros a line llist Hin Hskip Hl. simpl in Hin.
  destruct Hin as [Heq|[Heq|[]]]; inversion Heq; subst.
  - vm_compute in Hl. inversion Hl; subst. simpl. lia.
  - exfalso. apply Hskip. simpl. now left.
Defined.

(** The series [open, high, low, close] with [skip = [close]] gives three
    columns, none of them for [close]. *)
Example table_skips_close :
  get_df_from_series int_truth (Handler [1; 2]%Z 0 1)
    [("open", [1; 2]); ("high", [3; 4]); ("low", [5; 6]);
     ("close", [7; 8])]%string%float
    None EmptyString ["close"%string] false
  = Ok [("open", [1; 2]); ("high", [3; 4]); ("low", [5; 6])]%string%float.
Proof.
  vm_compute. reflexivity.
Qed.
